(** * Document decomposition and chunking pipeline of [rag/utils.py]

    A shallow embedding of the loaders of [rag/utils.py] (text normaliser,
    fixed-window chunker, chunk assembler, PDF / DOCX / PPTX / plain-text
    loaders and the dispatcher) together with the properties stated about
    them.

    Conventions of the embedding:
    - a Python [str] is a list of Unicode code points ([list N]);
    - a Python [int] is a [Z];
    - a metadata [dict] is a [gmap] from (literal) keys to Python values;
    - code that may raise returns an [option] ([None] = an exception was
      raised); a [try .. except Exception: continue] is a [match] on it;
    - the file system the loaders write images to is threaded explicitly. *)

From Stdlib Require Import ZArith NArith Ascii String List Lia.
From Stdlib.Strings Require Import Byte.
From stdpp Require Import base option list strings pretty gmap.

#[local] Open Scope Z_scope.

(** ** Python strings *)

Module Py.

Definition char : Type := N.
Definition str : Type := list char.

(** A string literal of the source. *)
Definition lit (s : string) : str :=
  map N_of_ascii (list_ascii_of_string s).

(** [len(s)] *)
Definition len {A} (s : list A) : Z := Z.of_nat (length s).

(** The code points for which [str.split()] and [str.strip()] separate or
    strip: CPython's [Py_UNICODE_ISSPACE]. *)
Definition isspace (c : char) : bool :=
  (((9 <=? c) && (c <=? 13)) || ((28 <=? c) && (c <=? 32))
   || (c =? 133) || (c =? 160) || (c =? 5760)
   || ((8192 <=? c) && (c <=? 8202))
   || (c =? 8232) || (c =? 8233) || (c =? 8239) || (c =? 8287)
   || (c =? 12288))%N.

(** An index of a slice, brought into [0 .. n]: a negative index counts from
    the end, and both ends are clipped. *)
Definition slice_index (n k : Z) : Z :=
  if k <? 0 then Z.max (k + n) 0 else Z.min k n.

(** [s[lo:hi]] *)
Definition py_slice {A} (s : list A) (lo hi : Z) : list A :=
  let lo' := slice_index (len s) lo in
  let hi' := slice_index (len s) hi in
  take (Z.to_nat (hi' - lo')) (drop (Z.to_nat lo') s).

(** [s[:n]] for a literal [n >= 0]. *)
Definition py_prefix {A} (n : nat) (s : list A) : list A := take n s.

(** [s.split()]: the maximal runs of non-whitespace, in order.  [word] is the
    run being read. *)
Fixpoint split_from (word : str) (s : str) : list str :=
  match s with
  | [] => match word with [] => [] | _ => [word] end
  | c :: rest =>
      if isspace c then
        match word with
        | [] => split_from [] rest
        | _ => word :: split_from [] rest
        end
      else split_from (word ++ [c]) rest
  end.

Definition split (s : str) : list str := split_from [] s.

(** [sep.join(parts)] *)
Fixpoint join (sep : str) (parts : list str) : str :=
  match parts with
  | [] => []
  | [p] => p
  | p :: ps => p ++ sep ++ join sep ps
  end.

(** [s.lstrip()], [s.rstrip()] and [s.strip()] *)
Fixpoint lstrip (s : str) : str :=
  match s with
  | [] => []
  | c :: rest => if isspace c then lstrip rest else s
  end.

Definition rstrip (s : str) : str := rev (lstrip (rev s)).

Definition strip (s : str) : str := rstrip (lstrip s).

(** Truth value of a string: [not s] holds of the empty string only. *)
Definition is_empty {A} (s : list A) : bool :=
  match s with [] => true | _ => false end.

(** [a or b] on strings. *)
Definition str_or (a b : str) : str := if is_empty a then b else a.

(** [str(n)] / [f"{n}"] for an [int]. *)
Definition str_of_int (n : Z) : str := lit (pretty n).




(** [s.startswith(p)] and [needle in hay] *)
Fixpoint starts_with (p s : str) : bool :=
  match p, s with
  | [], _ => true
  | a :: p', b :: s' => (a =? b)%N && starts_with p' s'
  | _ :: _, [] => false
  end.

Fixpoint contains (needle hay : str) : bool :=
  starts_with needle hay
  || match hay with [] => false | _ :: rest => contains needle rest end.

(** [s.replace(a, b)] for single characters [a] and [b]. *)
Definition replace_char (a b : char) (s : str) : str :=
  map (fun c => if (c =? a)%N then b else c) s.

(** [s.rfind(c)] for a single character: the last index of [c], or -1. *)
Fixpoint rfind_from (c : char) (s : str) (i last : Z) : Z :=
  match s with
  | [] => last
  | x :: rest => rfind_from c rest (i + 1) (if (x =? c)%N then i else last)
  end.

Definition rfind (c : char) (s : str) : Z := rfind_from c s 0 (-1).

(** [s[lo:]] and [s[:hi]] *)
Definition py_from {A} (s : list A) (lo : Z) : list A :=
  drop (Z.to_nat (slice_index (len s) lo)) s.

Definition py_upto {A} (s : list A) (hi : Z) : list A :=
  take (Z.to_nat (slice_index (len s) hi)) s.

(** [s.split(c)] for a single character separator. *)
Fixpoint split_on_from (c : char) (field : str) (s : str) : list str :=
  match s with
  | [] => [field]
  | x :: rest =>
      if (x =? c)%N then field :: split_on_from c [] rest
      else split_on_from c (field ++ [x]) rest
  end.

Definition split_on (c : char) (s : str) : list str := split_on_from c [] s.

(** The line boundaries of [str.splitlines()]. *)
Definition is_linebreak (c : char) : bool :=
  (((10 <=? c) && (c <=? 13)) || ((28 <=? c) && (c <=? 30))
   || (c =? 133) || (c =? 8232) || (c =? 8233))%N.

(** [s.splitlines()]; [after_cr] says that the previous character was a
    carriage return, so that a line feed now belongs to the same break. *)
Fixpoint splitlines_from (line : str) (after_cr : bool) (s : str) : list str :=
  match s with
  | [] => match line with [] => [] | _ => [line] end
  | c :: rest =>
      if after_cr && (c =? 10)%N then splitlines_from [] false rest
      else if is_linebreak c then line :: splitlines_from [] (c =? 13)%N rest
      else splitlines_from (line ++ [c]) false rest
  end.

Definition splitlines (s : str) : list str := splitlines_from [] false s.

(** [enumerate(l, start)] *)
Fixpoint enumerate {A} (start : Z) (l : list A) : list (Z * A) :=
  match l with
  | [] => []
  | x :: rest => (start, x) :: enumerate (start + 1) rest
  end.

(** *** [os.path] (POSIX flavour) *)

Definition SEP : char := 47%N.      (* "/" *)
Definition EXTSEP : char := 46%N.   (* "." *)

(** [os.path.basename(p)] *)
Definition basename (p : str) : str := py_from p (rfind SEP p + 1).

(** [os.path.splitext(p)]: the extension starts at the last dot of the last
    component, unless that component has only dots before it. *)
Definition splitext (p : str) : str * str :=
  let sepIndex := rfind SEP p in
  let dotIndex := rfind EXTSEP p in
  if (dotIndex >? sepIndex)
     && existsb (fun c => negb (c =? EXTSEP)%N) (py_slice p (sepIndex + 1) dotIndex)
  then (py_upto p dotIndex, py_from p dotIndex)
  else (p, []).

(** [os.path.join(a, b)] *)
Definition path_join (a b : str) : str :=
  if starts_with [SEP] b then b
  else if is_empty a || starts_with [SEP] (rev a) then a ++ b
  else a ++ [SEP] ++ b.

(** The longest common prefix of two component lists. *)
Fixpoint common_prefix (a b : list str) : list str :=
  match a, b with
  | x :: a', y :: b' => if decide (x = y) then x :: common_prefix a' b' else []
  | _, _ => []
  end.

Definition components (p : str) : list str :=
  filter (fun x => x <> []) (split_on SEP p).

(** [os.path.relpath(path, start)], both taken from the same working
    directory and free of [.] and [..] components (no [normpath]). *)
Definition relpath (path start : str) : str :=
  let start_list := components start in
  let path_list := components path in
  let i := length (common_prefix start_list path_list) in
  let rel_list :=
    replicate (length start_list - i) (lit "..") ++ drop i path_list in
  if is_empty rel_list then lit "." else join [SEP] rel_list.

(** *** Text files *)

Definition bytes : Type := list Byte.byte.

Definition is_cont (b : N) : bool := ((128 <=? b) && (b <=? 191))%N.

(** The range of the second byte of a multi-byte UTF-8 sequence, which
    depends on the lead byte (no overlong forms, no surrogates, nothing above
    U+10FFFF). *)
Definition second_ok (b0 b1 : N) : bool :=
  (if b0 =? 224 then (160 <=? b1) && (b1 <=? 191)
   else if b0 =? 237 then (128 <=? b1) && (b1 <=? 159)
   else if b0 =? 240 then (144 <=? b1) && (b1 <=? 191)
   else if b0 =? 244 then (128 <=? b1) && (b1 <=? 143)
   else is_cont b1)%N.

(** One pass of the UTF-8 decoder: a code point for each well-formed
    sequence, [None] for each ill-formed one; after an ill-formed sequence
    decoding resumes at the first byte that is not part of it. *)
Fixpoint utf8_scan (bs : list N) : list (option char) :=
  match bs with
  | [] => []
  | b0 :: r0 =>
      if (b0 <? 128)%N then Some b0 :: utf8_scan r0
      else if ((194 <=? b0) && (b0 <=? 223))%N then
        match r0 with
        | [] => [None]
        | b1 :: r1 =>
            if is_cont b1
            then Some ((b0 - 192) * 64 + (b1 - 128))%N :: utf8_scan r1
            else None :: utf8_scan r0
        end
      else if ((224 <=? b0) && (b0 <=? 239))%N then
        match r0 with
        | [] => [None]
        | b1 :: r1 =>
            if second_ok b0 b1 then
              match r1 with
              | [] => [None]
              | b2 :: r2 =>
                  if is_cont b2
                  then Some ((b0 - 224) * 4096 + (b1 - 128) * 64
                             + (b2 - 128))%N :: utf8_scan r2
                  else None :: utf8_scan r1
              end
            else None :: utf8_scan r0
        end
      else if ((240 <=? b0) && (b0 <=? 244))%N then
        match r0 with
        | [] => [None]
        | b1 :: r1 =>
            if second_ok b0 b1 then
              match r1 with
              | [] => [None]
              | b2 :: r2 =>
                  if is_cont b2 then
                    match r2 with
                    | [] => [None]
                    | b3 :: r3 =>
                        if is_cont b3
                        then Some ((b0 - 240) * 262144 + (b1 - 128) * 4096
                                   + (b2 - 128) * 64 + (b3 - 128))%N
                             :: utf8_scan r3
                        else None :: utf8_scan r2
                    end
                  else None :: utf8_scan r1
              end
            else None :: utf8_scan r0
        end
      else None :: utf8_scan r0
  end.


(** [bs.decode("utf-8", errors="ignore")]: ill-formed sequences are dropped. *)
Definition decode_ignore (bs : bytes) : str :=
  omap id (utf8_scan (map Byte.to_N bs)).

(** Universal newlines of text mode: [\r\n] and [\r] are read as [\n]. *)
Fixpoint universal_newlines (after_cr : bool) (s : str) : str :=
  match s with
  | [] => []
  | c :: rest =>
      if (c =? 13)%N then 10%N :: universal_newlines true rest
      else if after_cr && (c =? 10)%N then universal_newlines false rest
      else c :: universal_newlines false rest
  end.

End Py.

Import Py.

(** ** Text normaliser and chunker *)

(** Chunking configuration of [rag/utils.py]. *)
Definition CHUNK_SIZE : Z := 900.
Definition CHUNK_OVERLAP : Z := 150.

(** [" ".join((s or "").split())] *)
Definition _norm_ws (s : str) : str := join (lit " ") (split s).

(** The [while i < len(text)] loop of [_chunk_text].  A Python loop need not
    end, so the loop runs on [fuel]: [None] says the fuel ran out before the
    loop condition became false. *)
Fixpoint chunk_loop (fuel : nat) (text : str) (size step i : Z)
    (chunks : list str) : option (list str) :=
  if i <? len text then
    match fuel with
    | O => None
    | S fuel' =>
        chunk_loop fuel' text size step (i + step)
          (chunks ++ [py_slice text i (i + size)])
    end
  else Some chunks.

Definition _chunk_text_fuel (fuel : nat) (text : str) (size overlap : Z)
    : option (list str) :=
  let text := _norm_ws text in
  if is_empty text then Some []
  else
    let step := Z.max (size - overlap) 1 in
    chunk_loop fuel text size step 0 [].

(** [_chunk_text]: the loop is run with as much fuel as the normalised text
    has characters, which [chunk_text_fuel_enough] shows to be enough. *)
Definition _chunk_text (text : str) (size overlap : Z) : list str :=
  default [] (_chunk_text_fuel (length (_norm_ws text)) text size overlap).


(** ** Chunk assembler *)

(** The values stored in a metadata dictionary. *)
Inductive pyval : Type :=
  | VStr (s : str)
  | VInt (n : Z)
  | VNone.

#[global] Instance pyval_eq_dec : EqDecision pyval.
Proof. solve_decision. Defined.

(** [page: int | None] *)
Definition of_page (page : option Z) : pyval :=
  match page with Some n => VInt n | None => VNone end.

(** A chunk: [(content, metadata)]. *)
Definition chunk : Type := str * gmap string pyval.

Definition _text_meta_chunk (text orig_filename : str) (page : option Z)
    : chunk :=
  let meta : gmap string pyval :=
    <["page" := of_page page]>
      (<["orig_filename" := VStr orig_filename]>
         (<["type" := VStr (lit "text")]> ∅)) in
  (text, meta).

Definition _image_meta_chunk (caption_short rel_image_path orig_filename : str)
    (page : option Z) (figure_no : Z) (caption_full : option str) : chunk :=
  let content :=
    lit "[Figure " ++ str_of_int figure_no ++ lit "] "
    ++ str_or caption_short (lit "Image from document") in
  let meta : gmap string pyval :=
    <["caption" := VStr (str_or (default [] caption_full)
                                (str_or caption_short []))]>
      (<["figure_no" := VInt figure_no]>
         (<["page" := of_page page]>
            (<["orig_filename" := VStr orig_filename]>
               (<["image_path" := VStr rel_image_path]>
                  (<["type" := VStr (lit "image")]> ∅))))) in
  (content, meta).

(** ** The file system and the exceptions of the loaders *)

(** The disk the loaders write to.  [written] is a log of the paths whose
    content was written in full, oldest first.  [faults] fixes the outcome of
    the coming file operations: [true] makes the next one raise; when the list
    is used up, operations succeed. *)
Record Disk : Type := {
  files : gmap str bytes;
  written : list str;
  faults : list bool;
}.

(** A computation that may change the disk and may raise ([None]). *)
Definition IO (A : Type) : Type := Disk -> Disk * option A.

Definition io_ret {A} (a : A) : IO A := fun d => (d, Some a).

Definition io_raise {A} : IO A := fun d => (d, None).

Definition io_bind {A B} (m : IO A) (k : A -> IO B) : IO B :=
  fun d =>
    match m d with
    | (d', Some a) => k a d'
    | (d', None) => (d', None)
    end.

Notation "'let*' x ':=' m 'in' k" := (io_bind m (fun x => k))
  (at level 10, x name, m at level 100, k at level 200).

(** A value whose computation raises when it is [None]. *)
Definition io_of_option {A} (o : option A) : IO A := fun d => (d, o).

(** [try: m / except Exception: ...]: the outcome of [m], never raising. *)
Definition io_try {A} (m : IO A) : IO (option A) :=
  fun d => let '(d', r) := m d in (d', Some r).

(** [for x in l: s = body(s, x)] *)
Fixpoint io_for {A S} (body : S -> A -> IO S) (l : list A) (s : S) : IO S :=
  match l with
  | [] => io_ret s
  | x :: rest => let* s' := body s x in io_for body rest s'
  end.

(** The next file operation: raises when the disk says so. *)
Definition next_fault (d : Disk) : bool * Disk :=
  match faults d with
  | [] => (false, d)
  | b :: rest => (b, {| files := files d; written := written d; faults := rest |})
  end.

(** [open(path, "wb")]: creates or truncates the file. *)
Definition open_wb (path : str) : IO unit := fun d =>
  let '(bad, d) := next_fault d in
  if bad then (d, None)
  else ({| files := <[path := []]> (files d); written := written d;
           faults := faults d |}, Some tt).

(** [f.write(data)] followed by the close of the file. *)
Definition f_write (path : str) (data : bytes) : IO unit := fun d =>
  let '(bad, d) := next_fault d in
  if bad then (d, None)
  else ({| files := <[path := data]> (files d);
           written := written d ++ [path]; faults := faults d |}, Some tt).

(** ** Documents as the parsing libraries present them *)

(** A raster of PyMuPDF: [pix.n] and the PNG that [pix.save] encodes
    ([None]: encoding raises). *)
Record Pixmap : Type := {
  pix_n : Z;
  pix_png : option bytes;
}.

(** A page: its text and the cross references of its images ([img[0]]). *)
Record PdfPage : Type := {
  page_text : str;
  page_images : list Z;
}.

(** A PDF document; [doc_pixmap xref] is [fitz.Pixmap(doc, xref)], [None]
    when it raises. *)
Record PdfDoc : Type := {
  doc_pages : list PdfPage;
  doc_pixmap : Z -> option Pixmap;
}.

(** A part of a DOCX package: whether it has a [blob] attribute, the blob
    ([None]: reading it raises) and its content type ([""] when missing). *)
Record DocxPart : Type := {
  part_has_blob : bool;
  part_blob : option bytes;
  part_content_type : str;
}.

(** What an attribute of a library object may do when the loader reads it. *)
Inductive attr (A : Type) : Type :=
  | AttrMissing            (* there is no such attribute *)
  | AttrRaises             (* reading it raises *)
  | AttrValue (v : A).

Arguments AttrMissing {A}.
Arguments AttrRaises {A}.
Arguments AttrValue {A} v.

(** A DOCX document: the texts of its paragraphs and the two accessors of
    the package the loader probes.  A [None] value of [part_related_by] is a
    false one ([None], an empty mapping). *)
Record DocxDoc : Type := {
  docx_paragraphs : list str;
  package_part_related_by : attr (option (list DocxPart));
  package_image_parts : attr (list DocxPart);
}.

(** The image of a picture shape. *)
Record PptxImage : Type := {
  image_filename : option str;   (* [None]: not a string, [splitext] raises *)
  image_blob : option bytes;     (* [None]: reading it raises *)
}.

(** [MSO_SHAPE_TYPE.PICTURE] *)
Definition PICTURE : Z := 13.

(** A shape of a slide.  [shape_alternative_text] is what reading the
    attribute [alternative_text] of the shape object does.  [shape_descr] is
    the alternative text of the shape as the presentation stores it, in the
    attribute [descr] of the [cNvPr] element of the shape ([None]: there is
    none); the loader does not read it. *)
Record Shape : Type := {
  shape_has_text_frame : option bool;    (* [None]: no such attribute *)
  shape_text : option (option str);      (* [None]: no such attribute *)
  shape_type : option (option Z);        (* [None]: reading it raises *)
  shape_image : option PptxImage;        (* [None]: reading it raises *)
  shape_alternative_text : attr (option str);
  shape_descr : option str;
}.

Definition Slide : Type := list Shape.

Definition PptxDoc : Type := list Slide.

(** What the loaders read: the parsers applied to a path ([None]: the file
    is missing or is not of that format, the call raises), the bytes of a
    file, the colour conversion of PyMuPDF and whether a directory can be
    made. *)
Record World : Type := {
  fitz_open : str -> option PdfDoc;
  fitz_csRGB : Pixmap -> option Pixmap;
  docx_Document : str -> option DocxDoc;
  pptx_Presentation : str -> option PptxDoc;
  read_bytes : str -> option bytes;
  makedirs_ok : str -> bool;
}.

(** ** The loaders *)

Section Loaders.

(** [str.isalnum] on one character: the table of the Unicode database that
    the interpreter carries. *)
Variable isalnum : char -> bool.

Variable w : World.

Definition _ensure_dir (path : str) : IO unit :=
  if makedirs_ok w path then io_ret tt else io_raise.

Definition _slug (s : str) : str :=
  map (fun c =>
         if isalnum c || bool_decide (c ∈ lit "-_.") then c else 95%N) s.

Definition _assets_dir (filepath uploads_root : str) : IO str :=
  let base := fst (splitext (basename filepath)) in
  let dir_path := path_join uploads_root (_slug base ++ lit "_assets") in
  let* _ := _ensure_dir dir_path in
  io_ret dir_path.

(** [os.path.relpath(save_abs, uploads_root).replace("\\", "/")] *)
Definition rel_path_of (save_abs uploads_root : str) : str :=
  replace_char 92%N 47%N (relpath save_abs uploads_root).

(** The state of the loops of a loader: [results] and [figure_no]. *)
Definition LoopState : Type := list chunk * Z.

(** *** PDF *)

Definition pdf_img_name (filename : str) (pidx idx : Z) : str :=
  _slug (fst (splitext filename)) ++ lit "_p" ++ str_of_int (pidx + 1)
  ++ lit "_" ++ str_of_int idx ++ lit ".png".

(** [pix.save(path)]: encode, then create and write the file. *)
Definition pix_save (pix : Pixmap) (path : str) : IO unit :=
  let* data := io_of_option (pix_png pix) in
  let* _ := open_wb path in
  f_write path data.

(** The body of the [try] of the image loop, up to the chunk it appends. *)
Definition pdf_try_image (doc : PdfDoc) (uploads_root assets_dir filename : str)
    (simple_caption : str) (pidx idx xref figure_no : Z) : IO chunk :=
  let* pix := io_of_option (doc_pixmap doc xref) in
  let* pix :=
    (if pix_n pix >? 4 then io_of_option (fitz_csRGB w pix) else io_ret pix) in
  let img_name := pdf_img_name filename pidx idx in
  let save_abs := path_join assets_dir img_name in
  let* _ := pix_save pix save_abs in
  let rel_path := rel_path_of save_abs uploads_root in
  io_ret (_image_meta_chunk simple_caption rel_path filename (Some (pidx + 1))
            figure_no (Some simple_caption)).

(** One round of [for idx, img in enumerate(image_list, start=1)]. *)
Definition pdf_image_step (doc : PdfDoc)
    (uploads_root assets_dir filename simple_caption : str) (pidx : Z)
    (st : LoopState) (img : Z * Z) : IO LoopState :=
  let '(results, figure_no) := st in
  let '(idx, xref) := img in
  let* r := io_try (pdf_try_image doc uploads_root assets_dir filename
                      simple_caption pidx idx xref figure_no) in
  match r with
  | Some c => io_ret (results ++ [c], figure_no + 1)
  | None => io_ret (results, figure_no)
  end.

(** The caption of the images of a page: its first four non-blank lines. *)
Definition pdf_simple_caption (page_text : str) : str :=
  let lines :=
    map strip (filter (fun ln => strip ln <> []) (splitlines page_text)) in
  py_prefix 300 (_norm_ws (join (lit " ") (py_prefix 4 lines))).

(** One round of [for pidx in range(len(doc))]. *)
Definition pdf_page_step (doc : PdfDoc) (uploads_root assets_dir filename : str)
    (st : LoopState) (p : Z * PdfPage) : IO LoopState :=
  let '(results, figure_no) := st in
  let '(pidx, page) := p in
  let page_text := page_text page in
  let results :=
    results ++ map (fun c => _text_meta_chunk c filename (Some (pidx + 1)))
                 (_chunk_text page_text CHUNK_SIZE CHUNK_OVERLAP) in
  let image_list := page_images page in
  if is_empty image_list then io_ret (results, figure_no)
  else
    let simple_caption := pdf_simple_caption page_text in
    io_for (pdf_image_step doc uploads_root assets_dir filename simple_caption
              pidx)
      (enumerate 1 image_list) (results, figure_no).

Definition _load_pdf_with_images (filepath uploads_root : str)
    : IO (list chunk) :=
  let* doc := io_of_option (fitz_open w filepath) in
  let* assets_dir := _assets_dir filepath uploads_root in
  let filename := basename filepath in
  let* st := io_for (pdf_page_step doc uploads_root assets_dir filename)
               (enumerate 0 (doc_pages doc)) ([], 1) in
  io_ret (fst st).

(** *** DOCX *)

(** The extension chosen from the content type of a part. *)
Definition docx_ext (ct : str) : str :=
  if contains (lit "jpeg") ct || contains (lit "jpg") ct then lit ".jpg"
  else if contains (lit "png") ct then lit ".png"
  else if contains (lit "gif") ct then lit ".gif"
  else lit ".png".

Definition docx_img_name (filename : str) (i : Z) (ext : str) : str :=
  _slug (fst (splitext filename)) ++ lit "_fig_" ++ str_of_int i ++ ext.

(** The parts the loader takes for images: those of [part_related_by] that
    have a blob, or else those of [image_parts]. *)
Definition docx_image_parts (doc : DocxDoc) : list DocxPart :=
  let image_parts :=
    match package_part_related_by doc with
    | AttrValue (Some rels) =>
        if is_empty rels then [] else filter (fun p => part_has_blob p) rels
    | _ => []
    end in
  match image_parts, package_image_parts doc with
  | [], AttrValue parts => parts
  | [], AttrRaises => []
  | _, _ => image_parts
  end.

Definition docx_try_part (uploads_root assets_dir filename : str)
    (context_snippet : str) (i : Z) (part : DocxPart) (figure_no : Z)
    : IO chunk :=
  let ct := part_content_type part in
  let ext := docx_ext ct in
  let img_name := docx_img_name filename i ext in
  let save_abs := path_join assets_dir img_name in
  let* _ := open_wb save_abs in
  let* blob := io_of_option (part_blob part) in
  let* _ := f_write save_abs blob in
  let rel_path := rel_path_of save_abs uploads_root in
  io_ret (_image_meta_chunk context_snippet rel_path filename None figure_no
            (Some context_snippet)).

(** One round of [for i, part in enumerate(image_parts, start=1)]. *)
Definition docx_part_step (uploads_root assets_dir filename : str)
    (context_snippet : str) (st : LoopState) (ip : Z * DocxPart)
    : IO LoopState :=
  let '(results, figure_no) := st in
  let '(i, part) := ip in
  let* r := io_try (docx_try_part uploads_root assets_dir filename
                      context_snippet i part figure_no) in
  match r with
  | Some c => io_ret (results ++ [c], figure_no + 1)
  | None => io_ret (results, figure_no)
  end.

Definition _load_docx_with_images (filepath uploads_root : str)
    : IO (list chunk) :=
  let* doc := io_of_option (docx_Document w filepath) in
  let* assets_dir := _assets_dir filepath uploads_root in
  let filename := basename filepath in
  let paragraphs :=
    map strip (filter (fun p => strip p <> []) (docx_paragraphs doc)) in
  let big_text := join (lit "
") paragraphs in
  let results :=
    map (fun c => _text_meta_chunk c filename None)
      (_chunk_text big_text CHUNK_SIZE CHUNK_OVERLAP) in
  let context_snippet :=
    py_prefix 300 (_norm_ws (join (lit " ") (py_prefix 6 paragraphs))) in
  let* st := io_for (docx_part_step uploads_root assets_dir filename
                       context_snippet)
               (enumerate 1 (docx_image_parts doc)) (results, 1) in
  io_ret (fst st).

(** *** PPTX *)

(** One round of the loop that gathers the texts of the shapes of a slide.
    A shape that says it has a text frame but has no [text] raises. *)
Definition pptx_text_step (slide_texts : list str) (shape : Shape)
    : IO (list str) :=
  let add (t : option str) :=
    let txt := strip (default [] t) in
    if is_empty txt then slide_texts else slide_texts ++ [txt] in
  match shape_has_text_frame shape with
  | Some true =>
      let* t := io_of_option (shape_text shape) in
      io_ret (add t)
  | _ =>
      match shape_text shape with
      | Some t => io_ret (add t)
      | None => io_ret slide_texts
      end
  end.

Definition pptx_img_name (filename : str) (sidx figure_no : Z) (ext : str)
    : str :=
  _slug (fst (splitext filename)) ++ lit "_s" ++ str_of_int sidx ++ lit "_"
  ++ str_of_int figure_no ++ ext.

(** [(getattr(shape, "alternative_text", ...) or ...).strip()] inside its
    [try]: the stripped value of the attribute [alternative_text], and the
    empty string when the shape has no such attribute, when its value is
    false, or when reading it raises. *)
Definition pptx_alt (shape : Shape) : str :=
  match shape_alternative_text shape with
  | AttrValue (Some s) => strip s
  | _ => []
  end.

(** The body of the [try] of the picture loop: the chunk it appends, or
    [None] when the shape is not a picture. *)
Definition pptx_try_shape (uploads_root assets_dir filename : str)
    (caption_ctx : str) (sidx : Z) (shape : Shape) (figure_no : Z)
    : IO (option chunk) :=
  let* ty := io_of_option (shape_type shape) in
  if bool_decide (ty = Some PICTURE) then
    let* img := io_of_option (shape_image shape) in
    let* fname := io_of_option (image_filename img) in
    let ext := str_or (snd (splitext fname)) (lit ".png") in
    let img_name := pptx_img_name filename sidx figure_no ext in
    let save_abs := path_join assets_dir img_name in
    let* _ := open_wb save_abs in
    let* blob := io_of_option (image_blob img) in
    let* _ := f_write save_abs blob in
    let rel_path := rel_path_of save_abs uploads_root in
    let alt := pptx_alt shape in
    let caption := str_or (_norm_ws alt) caption_ctx in
    io_ret (Some (_image_meta_chunk caption rel_path filename (Some sidx)
                    figure_no (Some caption)))
  else io_ret None.

(** One round of the second [for shape in slide.shapes]. *)
Definition pptx_shape_step (uploads_root assets_dir filename : str)
    (caption_ctx : str) (sidx : Z) (st : LoopState) (shape : Shape)
    : IO LoopState :=
  let '(results, figure_no) := st in
  let* r := io_try (pptx_try_shape uploads_root assets_dir filename
                      caption_ctx sidx shape figure_no) in
  match r with
  | Some (Some c) => io_ret (results ++ [c], figure_no + 1)
  | _ => io_ret (results, figure_no)
  end.

(** The text of a slide: the texts of its shapes, one per line. *)
Definition pptx_slide_text (slide : Slide) : IO str :=
  let* slide_texts := io_for pptx_text_step slide [] in
  io_ret (join (lit "
") slide_texts).

(** One round of [for sidx, slide in enumerate(prs.slides, start=1)]. *)
Definition pptx_slide_step (uploads_root assets_dir filename : str)
    (st : LoopState) (s : Z * Slide) : IO LoopState :=
  let '(results, figure_no) := st in
  let '(sidx, slide) := s in
  let* slide_text := pptx_slide_text slide in
  let results :=
    results ++ map (fun c => _text_meta_chunk c filename (Some sidx))
                 (_chunk_text slide_text CHUNK_SIZE CHUNK_OVERLAP) in
  let caption_ctx := py_prefix 300 (_norm_ws slide_text) in
  io_for (pptx_shape_step uploads_root assets_dir filename caption_ctx sidx)
    slide (results, figure_no).

Definition _load_pptx_with_images (filepath uploads_root : str)
    : IO (list chunk) :=
  let* prs := io_of_option (pptx_Presentation w filepath) in
  let* assets_dir := _assets_dir filepath uploads_root in
  let filename := basename filepath in
  let* st := io_for (pptx_slide_step uploads_root assets_dir filename)
               (enumerate 1 prs) ([], 1) in
  io_ret (fst st).

(** *** Plain text, CSV, Markdown *)

(** [open(filepath, "r", encoding="utf-8", errors="ignore")] and [f.read()]:
    [None] when the file cannot be opened or read. *)
Definition read_text (filepath : str) : option str :=
  universal_newlines false <$> (decode_ignore <$> read_bytes w filepath).

Definition _load_plain (filepath uploads_root : str) : IO (list chunk) :=
  let* text := io_ret (default [] (read_text filepath)) in
  io_ret (map (fun c => _text_meta_chunk c (basename filepath) None)
            (_chunk_text text CHUNK_SIZE CHUNK_OVERLAP)).

(** *** Dispatcher *)


End Loaders.

(** [str.isalnum] restricted to ASCII, for running the loaders on examples. *)
Definition ascii_isalnum (c : char) : bool :=
  (((48 <=? c) && (c <=? 57)) || ((65 <=? c) && (c <=? 90))
   || ((97 <=? c) && (c <=? 122)))%N.

(** A disk with no file and no fault. *)
Definition empty_disk : Disk := {| files := ∅; written := []; faults := [] |}.

(** ** Definitions used to state the properties *)

(** The number of rounds of the chunking loop from offset [i]: the offsets
    [i, i + step, ...] that lie before the end of a text of length [L]. *)
Definition n_chunks (L i step : Z) : nat :=
  Z.to_nat ((L - i + step - 1) / step).

(** The chunks of a normalised text, without fuel: one slice per offset. *)
Definition chunks_of (t : str) (size overlap : Z) : list str :=
  let step := Z.max (size - overlap) 1 in
  map (fun k : nat =>
         py_slice t (Z.of_nat k * step) (Z.of_nat k * step + size))
    (seq 0 (n_chunks (len t) 0 step)).

(** Collapsing every run of whitespace to one space, in the words of the
    contract of the normaliser; [in_run] says that the previous character was
    whitespace. *)
Fixpoint collapse_runs (in_run : bool) (s : str) : str :=
  match s with
  | [] => []
  | c :: rest =>
      if isspace c then
        if in_run then collapse_runs true rest
        else 32%N :: collapse_runs true rest
      else c :: collapse_runs false rest
  end.

(** Reversing the overlap: the first chunk, then every later chunk without
    its first [overlap] characters. *)
Definition undo_overlap (overlap : nat) (chunks : list str) : str :=
  match chunks with
  | [] => []
  | c :: rest => c ++ concat (map (drop overlap) rest)
  end.

(** A word in progress: not empty and free of whitespace. *)
Definition is_word (w : str) : Prop :=
  w <> [] /\ Forall (fun c => isspace c = false) w.

(** *** Reading chunks *)

(** [chunk[1]["type"] == ty] *)
Definition has_type (ty : string) (c : chunk) : Prop :=
  c.2 !! "type" = Some (VStr (lit ty)).

#[global] Instance has_type_dec ty c : Decision (has_type ty c).
Proof. unfold has_type. apply _. Defined.

Definition image_chunks (chunks : list chunk) : list chunk :=
  filter (has_type "image") chunks.

Definition text_chunks (chunks : list chunk) : list chunk :=
  filter (has_type "text") chunks.

Definition figure_no_of (c : chunk) : option Z :=
  match c.2 !! "figure_no" with Some (VInt n) => Some n | _ => None end.

Definition image_path_of (c : chunk) : option str :=
  match c.2 !! "image_path" with Some (VStr p) => Some p | _ => None end.

Definition caption_of (c : chunk) : option str :=
  match c.2 !! "caption" with Some (VStr s) => Some s | _ => None end.

(** The schema of a chunk: a text chunk has none of the three image keys,
    an image chunk has all three, with a string for a caption. *)
Definition schema_ok (c : chunk) : Prop :=
  (has_type "text" c
   /\ c.2 !! "image_path" = None /\ c.2 !! "figure_no" = None
   /\ c.2 !! "caption" = None)
  \/ (has_type "image" c
      /\ (exists p, c.2 !! "image_path" = Some (VStr p))
      /\ (exists n, c.2 !! "figure_no" = Some (VInt n))
      /\ (exists s, c.2 !! "caption" = Some (VStr s))).

(** *** The loaders by name *)

Inductive Loader : Type := PdfLoader | DocxLoader | PptxLoader | PlainLoader.

Definition run_loader (isalnum : char -> bool) (w : World) (k : Loader)
    (filepath uploads_root : str) : IO (list chunk) :=
  match k with
  | PdfLoader => _load_pdf_with_images isalnum w filepath uploads_root
  | DocxLoader => _load_docx_with_images isalnum w filepath uploads_root
  | PptxLoader => _load_pptx_with_images isalnum w filepath uploads_root
  | PlainLoader => _load_plain w filepath uploads_root
  end.


(** *** What a computation did to the disk *)

(** [d'] has every file of [d]. *)
Definition keeps_files (d d' : Disk) : Prop :=
  forall p, is_Some (files d !! p) -> is_Some (files d' !! p).

(** From [d] to [d'] the files at [ws] were written, in this order, and
    nothing else was written in full. *)
Definition wrote (d d' : Disk) (ws : list str) : Prop :=
  written d' = written d ++ ws
  /\ keeps_files d d'
  /\ (forall p, p ∈ ws -> is_Some (files d' !! p)).

(** The state of a loader's loops after the writes [ws]: the next figure
    number counts them, and the image chunks among the results carry the
    figure numbers and the paths of these writes, in order. *)
Definition numbered (uploads_root : str) (st : LoopState) (ws : list str)
    : Prop :=
  st.2 = 1 + len ws
  /\ omap figure_no_of (image_chunks st.1) = seqZ 1 (len ws)
  /\ omap image_path_of (image_chunks st.1)
     = map (fun p => rel_path_of p uploads_root) ws
  /\ length (image_chunks st.1) = length ws.

(** *** The shapes of the chunks of a loader *)

(** A chunk built by the assembler for file [filename] and page [page]. *)
Definition chunk_form (filename : str) (page : option Z) (c : chunk) : Prop :=
  (exists s, c = _text_meta_chunk s filename page)
  \/ (exists cap path n capf,
        c = _image_meta_chunk cap path filename page n capf).

(** The directory [_assets_dir] makes and returns. *)
Definition assets_dir_of (isalnum : char -> bool) (filepath uploads_root : str)
    : str :=
  path_join uploads_root
    (_slug isalnum (fst (splitext (basename filepath))) ++ lit "_assets").

(** The files the PDF loader tries to write for a page, and for a document,
    in the order of the loops. *)
Definition pdf_page_paths (isalnum : char -> bool) (assets_dir filename : str)
    (p : Z * PdfPage) : list str :=
  map (fun ix : Z * Z =>
         path_join assets_dir (pdf_img_name isalnum filename p.1 ix.1))
    (enumerate 1 (page_images p.2)).

Definition pdf_candidates (isalnum : char -> bool)
    (filepath uploads_root : str) (doc : PdfDoc) : list str :=
  concat (map (pdf_page_paths isalnum
                 (assets_dir_of isalnum filepath uploads_root)
                 (basename filepath))
            (enumerate 0 (doc_pages doc))).

(** The files the DOCX loader tries to write, in the order of its loop. *)
Definition docx_candidates (isalnum : char -> bool)
    (filepath uploads_root : str) (doc : DocxDoc) : list str :=
  map (fun ip : Z * DocxPart =>
         path_join (assets_dir_of isalnum filepath uploads_root)
           (docx_img_name isalnum (basename filepath) ip.1
              (docx_ext (part_content_type ip.2))))
    (enumerate 1 (docx_image_parts doc)).

(** *** Outcomes of a computation *)

(** From disk [d] the computation [m] ends in a disk and a value that
    satisfy [Q], or raises leaving a disk that satisfies [E]. *)
Definition io_post {A} (m : IO A) (d : Disk) (Q : Disk -> A -> Prop)
    (E : Disk -> Prop) : Prop :=
  match m d with
  | (d', Some a) => Q d' a
  | (d', None) => E d'
  end.

(** The invariant of the loops of a loader that started on disk [d0]: the
    files [ws] were written since, the results are numbered after them, and
    every chunk so far satisfies [P]. *)
Definition loop_inv (uploads_root : str) (P : chunk -> Prop) (d0 d : Disk)
    (st : LoopState) (ws : list str) : Prop :=
  wrote d0 d ws /\ numbered uploads_root st ws /\ Forall P st.1.

(** A chunk of a document of [n] pages or slides: built by the assembler
    for one of them. *)
Definition paged_form (filename : str) (n : Z) (c : chunk) : Prop :=
  exists p, 1 <= p <= n /\ chunk_form filename (Some p) c.

(** An image chunk of the PPTX loader: made for a picture shape of a slide
    of the deck, named after the slide and the figure number, captioned with
    the normalised value of the attribute [alternative_text] of the shape
    or, when that is empty, with the start of the normalised text of the
    slide. *)
Definition pptx_image_form (isalnum : char -> bool)
    (root assets_dir filename : str) (prs : PptxDoc) (c : chunk) : Prop :=
  exists (sidx : Z) (slide : Slide) (shape : Shape) (img : PptxImage)
         (fname slide_text : str) (n : Z),
    (sidx, slide) ∈ enumerate 1 prs /\ shape ∈ slide
    /\ shape_type shape = Some (Some PICTURE)
    /\ shape_image shape = Some img /\ image_filename img = Some fname
    /\ (forall d, pptx_slide_text slide d = (d, Some slide_text))
    /\ let ext := str_or (splitext fname).2 (lit ".png") in
       let caption :=
         str_or (_norm_ws (pptx_alt shape))
           (py_prefix 300 (_norm_ws slide_text)) in
       c = _image_meta_chunk caption
             (rel_path_of
                (path_join assets_dir
                   (pptx_img_name isalnum filename sidx n ext)) root)
             filename (Some sidx) n (Some caption).

Definition pptx_form (isalnum : char -> bool)
    (root assets_dir filename : str) (prs : PptxDoc) (c : chunk) : Prop :=
  (exists s p, 1 <= p <= len prs /\ c = _text_meta_chunk s filename (Some p))
  \/ pptx_image_form isalnum root assets_dir filename prs c.

(** ** Example documents *)

Definition demo_rgb : Pixmap := {| pix_n := 3; pix_png := Some [x89; x50] |}.

Definition demo_cmyk : Pixmap := {| pix_n := 5; pix_png := Some [x01] |}.

(** Two pages: the first with two images, of which the second cannot be
    decoded; the second with one image in a CMYK colour space. *)
Definition demo_pdf : PdfDoc :=
  {| doc_pages :=
       [ {| page_text := lit "Sales  report
2024"; page_images := [7; 8] |};
         {| page_text := lit "Appendix"; page_images := [9] |} ];
     doc_pixmap := fun xref =>
       if xref =? 7 then Some demo_rgb
       else if xref =? 9 then Some demo_cmyk
       else None |}.

(** A document whose package has no usable [part_related_by]; its second
    image part has no blob. *)
Definition demo_docx : DocxDoc :=
  {| docx_paragraphs := [lit " First paragraph "; lit "  "; lit "Second"];
     package_part_related_by := AttrRaises;
     package_image_parts :=
       AttrValue
         [ {| part_has_blob := true; part_blob := Some [x01];
              part_content_type := lit "image/jpeg" |};
           {| part_has_blob := false; part_blob := None;
              part_content_type := lit "image/png" |};
           {| part_has_blob := true; part_blob := Some [x02];
              part_content_type := lit "image/gif" |} ] |}.

(** A text box and a picture as python-pptx presents them: the shape
    objects have no attribute [alternative_text]. *)
Definition text_shape (s : str) : Shape :=
  {| shape_has_text_frame := Some true; shape_text := Some (Some s);
     shape_type := Some (Some 17); shape_image := None;
     shape_alternative_text := AttrMissing; shape_descr := None |}.

Definition picture_shape (fname : str) (blob : bytes) (descr : option str)
    : Shape :=
  {| shape_has_text_frame := Some false; shape_text := None;
     shape_type := Some (Some PICTURE);
     shape_image :=
       Some {| image_filename := Some fname; image_blob := Some blob |};
     shape_alternative_text := AttrMissing; shape_descr := descr |}.

(** A picture with an alternative text, and one without. *)
Definition demo_picture_alt : Shape :=
  picture_shape (lit "image1.jpeg") [x01] (Some (lit "Bar chart of revenue")).

Definition demo_picture_noalt : Shape :=
  picture_shape (lit "image2") [x02] None.

(** Two slides: the first without pictures, the second with a text and two
    pictures, of which only the first has an alternative text. *)
Definition demo_pptx : PptxDoc :=
  [ [text_shape (lit "Quarterly results")];
    [ text_shape (lit " Revenue   by region ");
      demo_picture_alt; demo_picture_noalt ] ].

(** The files of the examples: one of each format, and a file of an unknown
    extension whose last byte is not UTF-8. *)
Definition demo_world : World :=
  {| fitz_open := fun p =>
       if decide (p = lit "docs/Report.PDF") then Some demo_pdf else None;
     fitz_csRGB := fun pix => Some {| pix_n := 3; pix_png := pix_png pix |};
     docx_Document := fun p =>
       if decide (p = lit "docs/memo.docx") then Some demo_docx else None;
     pptx_Presentation := fun p =>
       if decide (p = lit "docs/deck.pptx") then Some demo_pptx else None;
     read_bytes := fun p =>
       if decide (p = lit "notes.xyz") then Some [x68; x69; xff]
       else if decide (p = lit "readme.md")
       then Some [x68; x65; x6c; x6c; x6f; x0d; x0a; x77; x6f]
       else None;
     makedirs_ok := fun _ => true |}.

(** A disk on which the first file operation raises. *)
Definition faulty_disk : Disk :=
  {| files := ∅; written := []; faults := [true] |}.

(** Running a loader of the examples: the disk it leaves and the chunks it
    returns (none when it raises). *)
Definition demo_run (k : Loader) (filepath : str) (d : Disk)
    : Disk * option (list chunk) :=
  run_loader ascii_isalnum demo_world k filepath (lit "uploads") d.

Definition demo_disk_after (k : Loader) (filepath : str) (d : Disk) : Disk :=
  (demo_run k filepath d).1.

Definition demo_chunks (k : Loader) (filepath : str) (d : Disk) : list chunk :=
  default [] (demo_run k filepath d).2.

(** The text chunks of the state of a loop. *)
Definition texts_of (st : LoopState) : list chunk := text_chunks st.1.

(** The text chunks a round of the page loop of the PDF loader adds. *)
Definition pdf_page_texts (filename : str) (p : Z * PdfPage)
    : option (list chunk) :=
  Some (map (fun c => _text_meta_chunk c filename (Some (p.1 + 1)))
          (_chunk_text (page_text p.2) CHUNK_SIZE CHUNK_OVERLAP)).

(** The text chunks a round of the slide loop of the PPTX loader adds;
    [None] when gathering the text of the slide raises. *)
Definition pptx_slide_texts (filename : str) (s : Z * Slide)
    : option (list chunk) :=
  (fun slide_text =>
     map (fun c => _text_meta_chunk c filename (Some s.1))
       (_chunk_text slide_text CHUNK_SIZE CHUNK_OVERLAP))
  <$> (pptx_slide_text s.2 empty_disk).2.

(** The text chunks the rounds of a loop add, one after the other; [None]
    when a round raises. *)
Fixpoint gather {A} (T : A -> option (list chunk)) (l : list A)
    : option (list chunk) :=
  match l with
  | [] => Some []
  | x :: rest =>
      match T x with
      | Some t => (fun ts => t ++ ts) <$> gather T rest
      | None => None
      end
  end.

(** A computation whose outcome, and whose use of the coming faults, depend
    on the disk through its faults only. *)
Definition fault_det {A} (m : IO A) : Prop :=
  forall d1 d2, faults d1 = faults d2 ->
    (m d1).2 = (m d2).2 /\ faults (m d1).1 = faults (m d2).1.

(** ** Further definitions used to state properties *)

(** A character [_slug] keeps. *)
Definition slug_keeps (isalnum : char -> bool) (c : char) : Prop :=
  isalnum c = true \/ c ∈ lit "-_.".

(** A string of the form the normaliser returns: words, not empty and free
    of whitespace, joined by single spaces. *)
Definition normal_form (t : str) : Prop :=
  exists words : list str, Forall is_word words /\ t = join (lit " ") words.

(** The text chunks of a page of a PDF, as the page loop appends them. *)
Definition pdf_page_text_chunks (filename : str) (p : Z * PdfPage)
    : list chunk :=
  map (fun c => _text_meta_chunk c filename (Some (p.1 + 1)))
    (_chunk_text (page_text p.2) CHUNK_SIZE CHUNK_OVERLAP).

(** The stripped text of a shape, when the shape has a [text] attribute and
    the text is not blank. *)
Definition shape_stripped_text (shape : Shape) : option str :=
  match shape_text shape with
  | Some t =>
      let txt := strip (default [] t) in
      if is_empty txt then None else Some txt
  | None => None
  end.

(** A shape that says it has a text frame and has no [text] attribute. *)
Definition shape_text_missing (shape : Shape) : Prop :=
  shape_has_text_frame shape = Some true /\ shape_text shape = None.

(** The paragraphs the DOCX loader keeps: those that are not blank,
    stripped. *)
Definition docx_kept_paragraphs (doc : DocxDoc) : list str :=
  map strip (filter (fun p => strip p <> []) (docx_paragraphs doc)).

(** The caption the DOCX loader gives every image: the first six kept
    paragraphs, normalised and cut to 300 characters. *)
Definition docx_context_snippet (doc : DocxDoc) : str :=
  py_prefix 300
    (_norm_ws (join (lit " ") (py_prefix 6 (docx_kept_paragraphs doc)))).

(** ** Alternative texts of pictures *)

(** A deck as python-pptx presents it: no shape object has an attribute
    [alternative_text] (the library gives the alternative text of a shape
    no attribute; it stays in the XML of the shape). *)
Definition library_deck (prs : PptxDoc) : Prop :=
  Forall (Forall (fun shape => shape_alternative_text shape = AttrMissing)) prs.

(** ** The images of a document, one attempt each *)

(** What a loader does for an image it could extract: the file it creates,
    named as for the figure number [n] the image would get, the bytes it
    writes to it ([None]: reading them raises, after the file was created),
    and the chunk it appends when the bytes are written. *)
Record Attempt : Type := {
  att_path : Z -> str;
  att_data : option bytes;
  att_chunk : Z -> chunk;
}.

(** The file operations of an attempt. *)
Definition save_attempt (a : Attempt) (n : Z) : IO unit :=
  let* _ := open_wb (att_path a n) in
  let* data := io_of_option (att_data a) in
  f_write (att_path a n) data.

(** The images of a document taken one by one, each on its own: [None] is
    an image that is skipped or fails before any file operation.  An attempt
    that saves its file gives its chunk, numbered [n], and the next image is
    numbered [n + 1]; one that fails gives no chunk, and the next image is
    tried all the same, with the number [n]. *)
Fixpoint save_all (atts : list (option Attempt)) (n : Z) (d : Disk)
    : Disk * list chunk :=
  match atts with
  | [] => (d, [])
  | None :: rest => save_all rest n d
  | Some a :: rest =>
      match save_attempt a n d with
      | (d', Some _) =>
          let '(d'', cs) := save_all rest (n + 1) d' in
          (d'', att_chunk a n :: cs)
      | (d', None) => save_all rest n d'
      end
  end.

(** The chunks of the images that can be saved, numbered from [n] on. *)
Fixpoint number_from (n : Z) (atts : list Attempt) : list chunk :=
  match atts with
  | [] => []
  | a :: rest => att_chunk a n :: number_from (n + 1) rest
  end.

(** The attempts that have bytes to write. *)
Definition extractable (atts : list (option Attempt)) : list Attempt :=
  omap (fun o => a ← o; _ ← att_data a; Some a) atts.

(** The attempt for image [idx] of page [pidx] of a PDF: none when the
    raster cannot be made, converted or encoded. *)
Definition pdf_attempt (isalnum : char -> bool) (w : World) (doc : PdfDoc)
    (uploads_root assets_dir filename simple_caption : str) (pidx : Z)
    (img : Z * Z) : option Attempt :=
  pix ← doc_pixmap doc img.2;
  pix ← (if pix_n pix >? 4 then fitz_csRGB w pix else Some pix);
  data ← pix_png pix;
  let save_abs :=
    path_join assets_dir (pdf_img_name isalnum filename pidx img.1) in
  Some {| att_path := fun _ => save_abs;
          att_data := Some data;
          att_chunk := fun n =>
            _image_meta_chunk simple_caption
              (rel_path_of save_abs uploads_root) filename (Some (pidx + 1))
              n (Some simple_caption) |}.

Definition pdf_page_attempts (isalnum : char -> bool) (w : World)
    (doc : PdfDoc) (uploads_root assets_dir filename : str)
    (p : Z * PdfPage) : list (option Attempt) :=
  map (pdf_attempt isalnum w doc uploads_root assets_dir filename
         (pdf_simple_caption (page_text p.2)) p.1)
    (enumerate 1 (page_images p.2)).

(** The attempt for part [i] of a DOCX package. *)
Definition docx_attempt (isalnum : char -> bool)
    (uploads_root assets_dir filename context_snippet : str)
    (ip : Z * DocxPart) : option Attempt :=
  let save_abs :=
    path_join assets_dir
      (docx_img_name isalnum filename ip.1
         (docx_ext (part_content_type ip.2))) in
  Some {| att_path := fun _ => save_abs;
          att_data := part_blob ip.2;
          att_chunk := fun n =>
            _image_meta_chunk context_snippet
              (rel_path_of save_abs uploads_root) filename None n
              (Some context_snippet) |}.

(** The caption context of a slide: its normalised text cut to 300
    characters (empty when gathering the text raises). *)
Definition pptx_caption_ctx (slide : Slide) : str :=
  py_prefix 300 (_norm_ws (default [] (pptx_slide_text slide empty_disk).2)).

(** The attempt for a shape of slide [sidx]: none when the shape is not a
    picture or when its type, its image or the name of its image cannot be
    read. *)
Definition pptx_attempt (isalnum : char -> bool)
    (uploads_root assets_dir filename caption_ctx : str) (sidx : Z)
    (shape : Shape) : option Attempt :=
  ty ← shape_type shape;
  if bool_decide (ty = Some PICTURE) then
    img ← shape_image shape;
    fname ← image_filename img;
    let ext := str_or (snd (splitext fname)) (lit ".png") in
    let save_abs (n : Z) :=
      path_join assets_dir (pptx_img_name isalnum filename sidx n ext) in
    let caption := str_or (_norm_ws (pptx_alt shape)) caption_ctx in
    Some {| att_path := save_abs;
            att_data := image_blob img;
            att_chunk := fun n =>
              _image_meta_chunk caption
                (rel_path_of (save_abs n) uploads_root) filename (Some sidx)
                n (Some caption) |}
  else None.

Definition pptx_slide_attempts (isalnum : char -> bool)
    (uploads_root assets_dir filename : str) (s : Z * Slide)
    : list (option Attempt) :=
  map (pptx_attempt isalnum uploads_root assets_dir filename
         (pptx_caption_ctx s.2) s.1) s.2.

(** The attempts of a loader for a file, in the order of its loops. *)
Definition image_attempts (isalnum : char -> bool) (w : World) (k : Loader)
    (filepath uploads_root : str) : list (option Attempt) :=
  let assets_dir := assets_dir_of isalnum filepath uploads_root in
  let filename := basename filepath in
  match k with
  | PdfLoader =>
      match fitz_open w filepath with
      | Some doc =>
          concat (map (pdf_page_attempts isalnum w doc uploads_root assets_dir
                         filename)
                    (enumerate 0 (doc_pages doc)))
      | None => []
      end
  | DocxLoader =>
      match docx_Document w filepath with
      | Some doc =>
          map (docx_attempt isalnum uploads_root assets_dir filename
                 (docx_context_snippet doc))
            (enumerate 1 (docx_image_parts doc))
      | None => []
      end
  | PptxLoader =>
      match pptx_Presentation w filepath with
      | Some prs =>
          concat (map (pptx_slide_attempts isalnum uploads_root assets_dir
                         filename)
                    (enumerate 1 prs))
      | None => []
      end
  | PlainLoader => []
  end.

(** A round of a loop that tries one image. *)
Definition attempt_step (att : option Attempt) (st : LoopState)
    : IO LoopState := fun d =>
  let '(d', cs) := save_all [att] st.2 d in
  (d', Some (st.1 ++ cs, st.2 + len cs)).

(** The chunks of the attempts of the loaders are image chunks. *)
Definition image_attempts_only (atts : list (option Attempt)) : Prop :=
  Forall (fun o => forall a n, o = Some a -> has_type "image" (att_chunk a n))
    atts.

(** The chunk of a run, if any, that names the image at [path]: its
    content and its figure number. *)
Definition chunk_of_image (r : Disk * option (list chunk)) (path : str)
    : list (str * option Z) :=
  map (fun c : chunk => (c.1, figure_no_of c))
    (filter (fun c : chunk => image_path_of c = Some path)
       (image_chunks (default [] r.2))).

(** ** Deciding equalities between outcomes *)

#[global] Instance byte_eq_dec : EqDecision Byte.byte := Byte.byte_eq_dec.

#[global] Instance Disk_eq_dec : EqDecision Disk.
Proof. solve_decision. Defined.

(** * Properties *)

(** A decidable closed statement holds when its decision procedure
    evaluates to true. *)
Ltac by_evaluation := apply (bool_decide_unpack _); vm_compute; exact I.

(** ** Slices *)

Lemma len_nonneg {A} (s : list A) : 0 <= len s.
Proof. unfold len. lia. Qed.

(** A slice [s[i:i+size]] with [i] and [size] not negative takes [size]
    elements from position [i]. *)
Lemma py_slice_window {A} (s : list A) (i size : Z) :
  0 <= i -> 0 <= size ->
  py_slice s i (i + size) = take (Z.to_nat size) (drop (Z.to_nat i) s).
Proof.
  intros Hi Hs. unfold py_slice, slice_index.
  pose proof (len_nonneg s) as Hn. unfold len in *.
  destruct (Z.ltb_spec i 0) as [?|_]; [lia|].
  destruct (Z.ltb_spec (i + size) 0) as [?|_]; [lia|].
  destruct (Z.le_gt_cases i (Z.of_nat (length s))) as [Hin|Hout].
  - rewrite (Z.min_l i) by lia.
    destruct (Z.le_gt_cases (i + size) (Z.of_nat (length s))) as [Hfit|Hcut].
    + rewrite Z.min_l by lia. f_equal. lia.
    + rewrite Z.min_r by lia.
      rewrite !take_ge; [reflexivity | |]; rewrite length_drop; lia.
  - rewrite !(drop_ge s) by lia. by rewrite !take_nil.
Qed.

(** ** The chunking loop *)

Lemma n_chunks_done (L i step : Z) :
  1 <= step -> L <= i -> n_chunks L i step = O.
Proof.
  intros Hstep Hi. unfold n_chunks.
  assert ((L - i + step - 1) / step <= 0); [|lia].
  destruct (Z.le_gt_cases 0 (L - i + step - 1)).
  - rewrite Z.div_small; lia.
  - assert ((L - i + step - 1) / step < 0); [|lia].
    apply Z.div_lt_upper_bound; lia.
Qed.

Lemma n_chunks_next (L i step : Z) :
  1 <= step -> i < L -> n_chunks L i step = S (n_chunks L (i + step) step).
Proof.
  intros Hstep Hi. unfold n_chunks.
  replace (L - i + step - 1) with ((L - (i + step) + step - 1) + 1 * step)
    by lia.
  rewrite Z.div_add by lia.
  assert (0 <= (L - (i + step) + step - 1) / step).
  { apply Z.div_pos; lia. }
  lia.
Qed.

Lemma n_chunks_bound (L step : Z) :
  1 <= step -> 0 <= L -> (n_chunks L 0 step <= Z.to_nat L)%nat.
Proof.
  intros Hstep HL. unfold n_chunks.
  assert ((L - 0 + step - 1) / step < L + 1); [|lia].
  apply Z.div_lt_upper_bound; nia.
Qed.

(** Offset [k * step] lies in the text exactly for the [k] below
    [n_chunks]. *)
Lemma n_chunks_offsets (L step : Z) (k : nat) :
  1 <= step -> 0 <= L ->
  (k < n_chunks L 0 step)%nat <-> Z.of_nat k * step < L.
Proof.
  intros Hstep HL. unfold n_chunks.
  replace (L - 0 + step - 1) with (L + step - 1) by lia.
  pose proof (Z.div_mod (L + step - 1) step ltac:(lia)) as Hdm.
  pose proof (Z.mod_pos_bound (L + step - 1) step ltac:(lia)) as Hmod.
  assert (0 <= (L + step - 1) / step) by (apply Z.div_pos; lia).
  split; intros Hk; nia.
Qed.

(** With enough fuel the loop ends, having appended one slice per offset. *)
Lemma chunk_loop_run (fuel : nat) (text : str) (size step : Z) :
  1 <= step ->
  forall (i : Z) (chunks : list str),
    (n_chunks (len text) i step <= fuel)%nat ->
    chunk_loop fuel text size step i chunks
    = Some (chunks
            ++ map (fun k : nat =>
                      py_slice text (i + Z.of_nat k * step)
                        (i + Z.of_nat k * step + size))
                 (seq 0 (n_chunks (len text) i step))).
Proof.
  intros Hstep. induction fuel as [|fuel IH]; intros i chunks Hfuel.
  - cbn [chunk_loop]. destruct (Z.ltb_spec i (len text)) as [Hlt|Hge].
    + rewrite (n_chunks_next _ _ _ Hstep Hlt) in Hfuel. lia.
    + rewrite n_chunks_done by lia. cbn. by rewrite app_nil_r.
  - cbn [chunk_loop]. destruct (Z.ltb_spec i (len text)) as [Hlt|Hge].
    + rewrite (n_chunks_next _ _ _ Hstep Hlt) in Hfuel |- *.
      rewrite IH by lia. f_equal. rewrite <- app_assoc. f_equal.
      cbn [seq map app]. rewrite Z.mul_0_l, Z.add_0_r. f_equal.
      rewrite <- seq_shift, map_map. apply map_ext. intros k.
      f_equal; lia.
    + rewrite n_chunks_done by lia. cbn. by rewrite app_nil_r.
Qed.

(** Without the clamp a step of 0 would keep the loop at offset 0 for
    ever: no amount of fuel lets it end on a non-empty text. *)
Lemma chunk_loop_step0_diverges (fuel : nat) (text : str) (size : Z)
    (chunks : list str) :
  text <> [] -> chunk_loop fuel text size 0 0 chunks = None.
Proof.
  intros Htext. revert chunks.
  induction fuel as [|fuel IH]; intros chunks; cbn [chunk_loop];
    destruct (Z.ltb_spec 0 (len text)) as [_|Hge];
    try (destruct text; [congruence | unfold len in Hge; cbn in Hge; lia]).
  - reflexivity.
  - apply IH.
Qed.

Lemma step_clamped (size overlap : Z) : 1 <= Z.max (size - overlap) 1.
Proof. lia. Qed.

Lemma chunk_text_fuel_enough (fuel : nat) (text : str) (size overlap : Z) :
  (length (_norm_ws text) <= fuel)%nat ->
  _chunk_text_fuel fuel text size overlap
  = Some (chunks_of (_norm_ws text) size overlap).
Proof.
  intros Hfuel. unfold _chunk_text_fuel, chunks_of.
  pose proof (step_clamped size overlap) as Hstep.
  destruct (_norm_ws text) as [|c t] eqn:Ht.
  - cbn [is_empty]. rewrite n_chunks_done by (unfold len; cbn; lia).
    reflexivity.
  - cbn [is_empty]. rewrite chunk_loop_run; [reflexivity | lia |].
    etrans; [apply n_chunks_bound; [lia | apply len_nonneg]|].
    unfold len. lia.
Qed.

Lemma chunk_text_eq (text : str) (size overlap : Z) :
  _chunk_text text size overlap = chunks_of (_norm_ws text) size overlap.
Proof. unfold _chunk_text. by rewrite chunk_text_fuel_enough. Qed.

Lemma chunks_of_length (t : str) (size overlap : Z) :
  (length (chunks_of t size overlap) <= length t)%nat.
Proof.
  unfold chunks_of. rewrite length_map, length_seq.
  etrans; [apply n_chunks_bound; [lia | apply len_nonneg]|].
  unfold len. lia.
Qed.

(** C10.  For every text and every pair of integers [size] and [overlap],
    also with [overlap >= size], the step of the chunker is clamped to at
    least 1 and its loop therefore ends: run with as many rounds of fuel as
    the normalised text has characters, or more, it returns a list, and the
    list has at most one chunk per character of the normalised text. *)
Theorem chunk_text_terminates (text : str) (size overlap : Z) (extra : nat) :
  1 <= Z.max (size - overlap) 1
  /\ _chunk_text_fuel (length (_norm_ws text) + extra) text size overlap
     = Some (_chunk_text text size overlap)
  /\ (length (_chunk_text text size overlap) <= length (_norm_ws text))%nat.
Proof.
  split; [apply step_clamped|]. rewrite chunk_text_eq. split.
  - apply chunk_text_fuel_enough. lia.
  - apply chunks_of_length.
Qed.


(** ** Whitespace normalisation *)

Lemma rstrip_snoc (s : str) (c : char) :
  rstrip (s ++ [c]) = if isspace c then rstrip s else s ++ [c].
Proof.
  unfold rstrip. rewrite rev_app_distr. cbn [rev app lstrip].
  destruct (isspace c); [reflexivity|].
  cbn [rev]. by rewrite rev_involutive.
Qed.

Lemma rstrip_app (a b : str) :
  rstrip (a ++ b) = match rstrip b with [] => rstrip a | y => a ++ y end.
Proof.
  induction b as [|d b IH] using rev_ind.
  - by rewrite app_nil_r.
  - rewrite app_assoc, !rstrip_snoc. destruct (isspace d); [exact IH|].
    rewrite <- app_assoc. by destruct b.
Qed.

Lemma rstrip_cons (c : char) (s : str) :
  rstrip (c :: s)
  = match rstrip s with
    | [] => if isspace c then [] else [c]
    | y => c :: y
    end.
Proof.
  change (c :: s) with ([c] ++ s). rewrite rstrip_app.
  destruct (rstrip s); [|reflexivity].
  change [c] with ([] ++ [c]). rewrite rstrip_snoc.
  by destruct (isspace c).
Qed.

Lemma is_word_snoc (w : str) (c : char) :
  isspace c = false -> Forall (fun c => isspace c = false) w ->
  is_word (w ++ [c]).
Proof.
  intros Hc Hw. split; [by destruct w|].
  apply Forall_app. split; [done|]. by constructor.
Qed.

Lemma rstrip_word (w : str) : is_word w -> rstrip w = w.
Proof.
  intros [Hne Hw]. destruct w as [|c w] using rev_ind; [done|].
  rewrite rstrip_snoc. apply Forall_app in Hw as [_ Hc].
  apply Forall_inv in Hc. by rewrite Hc.
Qed.

Lemma split_from_words (w s : str) : Forall (fun p => p <> []) (split_from w s).
Proof.
  revert w. induction s as [|c s IH]; intros w; cbn [split_from].
  - destruct w; by repeat constructor.
  - destruct (isspace c); [|apply IH].
    destruct w; [apply IH|]. constructor; [done | apply IH].
Qed.

Lemma join_nil_inv (sep : str) (parts : list str) :
  Forall (fun p => p <> []) parts -> join sep parts = [] -> parts = [].
Proof.
  intros Hparts Hj. destruct parts as [|p ps]; [done|].
  apply Forall_cons in Hparts as [Hp _]. cbn [join] in Hj.
  destruct ps; [done|]. by apply app_eq_nil in Hj as [? _].
Qed.

Lemma collapse_lstrip (s : str) :
  lstrip (collapse_runs false s) = collapse_runs true s.
Proof.
  induction s as [|c s IH]; [done|]. cbn [collapse_runs].
  destruct (isspace c) eqn:Hc; cbn [lstrip].
  - change (isspace 32%N) with true. cbn iota.
    clear IH. induction s as [|d s IH]; [done|]. cbn [collapse_runs].
    destruct (isspace d) eqn:Hd; cbn [lstrip]; by rewrite ?Hd.
  - by rewrite Hc.
Qed.

(** [join] and [split] against the words of the contract, with a word in
    progress and without. *)
Lemma norm_ws_collapse_aux (s : str) :
  (forall w, is_word w ->
     join (lit " ") (split_from w s) = rstrip (w ++ collapse_runs false s))
  /\ join (lit " ") (split_from [] s) = rstrip (collapse_runs true s).
Proof.
  induction s as [|c s [IHw IH0]].
  - split; [|done]. intros w Hw. cbn [split_from collapse_runs].
    rewrite app_nil_r, rstrip_word by done. by destruct w.
  - split.
    + intros w Hw. cbn [split_from collapse_runs].
      destruct (isspace c) eqn:Hc.
      * assert (split_from w (c :: s) = w :: split_from [] s) as Hsplit.
        { cbn [split_from]. rewrite Hc. destruct w; [by destruct Hw|done]. }
        destruct w as [|a w]; [by destruct Hw|].
        rewrite rstrip_app, rstrip_cons. change (isspace 32%N) with true.
        rewrite <- IH0. cbn [join].
        destruct (split_from [] s) as [|p ps] eqn:Hs.
        -- cbn [join]. by rewrite rstrip_word.
        -- pose proof (split_from_words [] s) as Hne. rewrite Hs in Hne.
           destruct (join (lit " ") (p :: ps)) eqn:Hj; [|done].
           by apply join_nil_inv in Hj.
      * rewrite IHw by (apply is_word_snoc; [done | apply Hw]).
        by rewrite <- app_assoc.
    + cbn [split_from collapse_runs app]. destruct (isspace c) eqn:Hc; [done|].
      rewrite (IHw [c]); [done|]. split; [done|]. by repeat constructor.
Qed.

(** The normaliser does what its contract says: whitespace runs collapsed to
    single spaces, then both ends trimmed. *)
Lemma norm_ws_collapse (s : str) :
  _norm_ws s = strip (collapse_runs false s).
Proof.
  unfold _norm_ws, split, strip. rewrite collapse_lstrip.
  apply norm_ws_collapse_aux.
Qed.

(** ** The chunks as windows of the normalised text *)

Section Windows.

Variables (t : str) (size overlap : Z).
Hypothesis overlap_nonneg : 0 <= overlap.
Hypothesis overlap_lt_size : overlap < size.

Let S' : nat := Z.to_nat size.
Let O' : nat := Z.to_nat overlap.
Let step : nat := Z.to_nat (size - overlap).

Lemma step_eq : (step = S' - O' /\ O' < S' /\ 0 < step)%nat.
Proof. unfold step, S', O'. lia. Qed.

Lemma chunks_of_windows :
  chunks_of t size overlap
  = map (fun k : nat => take S' (drop (k * step) t))
      (seq 0 (n_chunks (len t) 0 (size - overlap))).
Proof.
  unfold chunks_of. rewrite Z.max_l by lia. apply map_ext. intros k.
  rewrite py_slice_window by lia. f_equal. f_equal. unfold step. lia.
Qed.

(** Chunk [k] exists exactly when offset [k * step] lies in the text, and is
    the window of [size] characters that starts there. *)
Lemma chunks_of_lookup (k : nat) (c : str) :
  chunks_of t size overlap !! k = Some c
  <-> (k * step < length t)%nat /\ c = take S' (drop (k * step) t).
Proof.
  rewrite chunks_of_windows, list_lookup_fmap, fmap_Some.
  setoid_rewrite lookup_seq.
  pose proof (n_chunks_offsets (len t) (size - overlap) k ltac:(lia)
                (len_nonneg t)) as Hoff.
  assert (Z.of_nat k * (size - overlap) < len t <-> (k * step < length t)%nat)
    as Hnat by (unfold len, step; nia).
  split.
  - intros (j & [-> Hj] & ->). cbn [Nat.add]. split; [tauto | done].
  - intros [Hk ->]. exists k. split; [split; [done | tauto] | done].
Qed.

Lemma chunks_of_is_Some (k : nat) :
  is_Some (chunks_of t size overlap !! k) <-> (k * step < length t)%nat.
Proof.
  split.
  - intros [c Hc]. by apply chunks_of_lookup in Hc as [? _].
  - intros Hk. eexists. by apply chunks_of_lookup.
Qed.

Lemma chunk_length (k : nat) :
  length (take S' (drop (k * step) t)) = (S' `min` (length t - k * step))%nat.
Proof. by rewrite length_take, length_drop. Qed.

(** The number of chunks: the first offset at or past the end. *)
Lemma chunks_of_count :
  (length (chunks_of t size overlap) * step >= length t)%nat
  /\ (forall k, (k < length (chunks_of t size overlap))%nat ->
                (k * step < length t)%nat).
Proof.
  split.
  - destruct (Nat.le_gt_cases (length t)
                (length (chunks_of t size overlap) * step)) as [|Hlt]; [lia|].
    apply chunks_of_is_Some in Hlt as [c Hc].
    apply lookup_lt_Some in Hc. lia.
  - intros k Hk. apply chunks_of_is_Some. by apply lookup_lt_is_Some.
Qed.

(** The last chunk runs to the end of the text. *)
Lemma chunks_of_last (c : str) :
  last (chunks_of t size overlap) = Some c ->
  c = drop ((length (chunks_of t size overlap) - 1) * step) t.
Proof.
  rewrite last_lookup. intros Hc.
  pose proof Hc as Hlt. apply lookup_lt_Some in Hlt.
  apply chunks_of_lookup in Hc as [Hk ->].
  replace (Nat.pred (length (chunks_of t size overlap)))
    with (length (chunks_of t size overlap) - 1)%nat by lia.
  apply take_ge. rewrite length_drop.
  destruct chunks_of_count as [Hcount _]. pose proof step_eq. nia.
Qed.

(** The first chunk followed by [m] later chunks, each without its first
    [overlap] characters, is a prefix of the text. *)
Lemma undo_overlap_prefix (m : nat) :
  take S' t
  ++ concat (map (fun k => drop O' (take S' (drop (k * step) t))) (seq 1 m))
  = take (m * step + S') t.
Proof.
  pose proof step_eq as (Hstep & HO & _).
  induction m as [|m IH]; [by rewrite app_nil_r|].
  rewrite seq_S, map_app, concat_app, app_assoc, IH. cbn [map concat].
  rewrite app_nil_r.
  replace S' with (O' + step)%nat at 2 by lia.
  rewrite <- take_drop_commute, drop_drop.
  replace ((1 + m) * step + O')%nat with (m * step + S')%nat by lia.
  rewrite take_take_drop. f_equal. lia.
Qed.

Lemma undo_overlap_chunks_of : undo_overlap O' (chunks_of t size overlap) = t.
Proof.
  pose proof step_eq as (Hstep & HO & Hpos).
  destruct chunks_of_count as [Hcount _].
  assert (chunks_of t size overlap
          = map (fun k => take S' (drop (k * step) t))
              (seq 0 (length (chunks_of t size overlap)))) as Hmap.
  { apply list_eq. intros k. rewrite list_lookup_fmap.
    destruct (chunks_of t size overlap !! k) as [c|] eqn:Hc.
    - pose proof Hc as Hlt. apply lookup_lt_Some in Hlt.
      rewrite lookup_seq_lt by done. cbn.
      by apply chunks_of_lookup in Hc as [_ ->].
    - apply lookup_ge_None in Hc. by rewrite lookup_seq_ge. }
  destruct (length (chunks_of t size overlap)) as [|m] eqn:Hn.
  - rewrite Hmap. cbn. destruct t; [done | cbn in Hcount; lia].
  - rewrite Hmap. cbn [seq map undo_overlap]. rewrite Nat.mul_0_l, drop_0.
    rewrite map_map. rewrite undo_overlap_prefix.
    apply take_ge. nia.
Qed.

(** What two consecutive chunks have in common. *)
Lemma chunks_of_shared (i : nat) (c c' : str) :
  chunks_of t size overlap !! i = Some c ->
  chunks_of t size overlap !! (i + 1)%nat = Some c' ->
  drop (S' - O') c = take O' c'.
Proof.
  pose proof step_eq as (Hstep & HO & _).
  intros [_ ->]%chunks_of_lookup [_ ->]%chunks_of_lookup.
  rewrite take_take, Nat.min_l by lia.
  rewrite <- Hstep.
  replace S' with (step + O')%nat at 1 by lia.
  rewrite <- take_drop_commute, drop_drop. f_equal. f_equal. lia.
Qed.

(** With an overlap of at most half the size, a chunk that is not the last
    one has at least [overlap] characters. *)
Lemma chunks_of_inner_long (i : nat) (c' : str) :
  2 * overlap <= size ->
  chunks_of t size overlap !! (i + 1)%nat = Some c' ->
  is_Some (chunks_of t size overlap !! (i + 2)%nat) ->
  (O' <= length c')%nat.
Proof.
  pose proof step_eq as (Hstep & HO & _).
  intros Hhalf [_ ->]%chunks_of_lookup Hnext%chunks_of_is_Some.
  rewrite chunk_length. assert (O' <= step)%nat by (unfold O', step; lia).
  nia.
Qed.

End Windows.

(** ** The contract of the chunker *)

(** C1, as stated, fails: with size 4 and overlap 3 the text [abcde] gives
    five slices of which three, not only the final one, are shorter than the
    size. *)
Lemma chunk_text_inner_slices_short :
  let chunks := _chunk_text (lit "abcde") 4 3 in
  chunks = [lit "abcd"; lit "bcde"; lit "cde"; lit "de"; lit "e"]
  /\ ~ (forall (k : nat) (c : str),
          chunks !! k = Some c -> (k + 1 < length chunks)%nat ->
          length c = 4%nat).
Proof.
  split; [by vm_compute|]. intros Hall.
  specialize (Hall 2%nat (lit "cde") eq_refl). vm_compute in Hall.
  assert (4 <= 5)%nat as Hle by lia. specialize (Hall Hle). discriminate.
Qed.

(** C1 (as amended).  For every text and integers [0 < overlap < size], the
    chunker works on the text with its whitespace runs collapsed to single
    spaces and its ends trimmed; an empty result gives no chunk; otherwise
    there is exactly one chunk for each of the offsets [0], [size - overlap],
    [2 (size - overlap)], ... that lie in the normalised text, chunk [k]
    being the slice of [size] characters that starts at offset
    [k (size - overlap)], cut at the end of the text (so its length is the
    smaller of [size] and what is left from its offset, and every slice that
    starts in the last [size] characters may be short, not only the final
    one), and the final chunk runs to the end of the text. *)
Theorem chunk_text_contract (text : str) (size overlap : Z) :
  0 < overlap -> overlap < size ->
  let t := _norm_ws text in
  let step := Z.to_nat (size - overlap) in
  let chunks := _chunk_text text size overlap in
  t = strip (collapse_runs false text)
  /\ (t = [] -> chunks = [])
  /\ (forall k : nat, is_Some (chunks !! k) <-> (k * step < length t)%nat)
  /\ (forall (k : nat) (c : str), chunks !! k = Some c ->
        c = take (Z.to_nat size) (drop (k * step) t)
        /\ length c = (Z.to_nat size `min` (length t - k * step))%nat)
  /\ (forall c : str, last chunks = Some c ->
        c = drop ((length chunks - 1) * step) t).
Proof.
  intros Hpos Hlt t step chunks. subst chunks. rewrite chunk_text_eq.
  fold t. assert (0 <= overlap) as Hnn by lia.
  split; [apply norm_ws_collapse|]. split; [|split; [|split]].
  - intros Ht. destruct (chunks_of t size overlap) as [|c cs] eqn:Hcs; [done|].
    assert (is_Some (chunks_of t size overlap !! 0%nat)) as Hsome
      by (rewrite Hcs; by eexists).
    apply chunks_of_is_Some in Hsome; [|done..]. rewrite Ht in Hsome.
    cbn in Hsome. lia.
  - intros k. by apply chunks_of_is_Some.
  - intros k c Hc. apply chunks_of_lookup in Hc as [_ ->]; [|done..].
    split; [done|]. by apply chunk_length.
  - intros c Hc. by apply chunks_of_last.
Qed.

Lemma chunk_text_contract_witness :
  (0 < 3 /\ 3 < 4)
  /\ let text := lit "  ab  cde f " in
     let t := _norm_ws text in
     let step := Z.to_nat (4 - 3) in
     let chunks := _chunk_text text 4 3 in
     t = strip (collapse_runs false text)
     /\ (t = [] -> chunks = [])
     /\ (forall k : nat, is_Some (chunks !! k) <-> (k * step < length t)%nat)
     /\ (forall (k : nat) (c : str), chunks !! k = Some c ->
           c = take (Z.to_nat 4) (drop (k * step) t)
           /\ length c = (Z.to_nat 4 `min` (length t - k * step))%nat)
     /\ (forall c : str, last chunks = Some c ->
           c = drop ((length chunks - 1) * step) t).
Proof.
  split; [lia|]. apply (chunk_text_contract (lit "  ab  cde f ") 4 3); lia.
Defined.

(** C2, as stated, fails: with size 4 and overlap 3 the chunks at positions
    2 and 3 of the text [abcde] are [cde] and [de]; the second of them is
    not the final chunk, and no string of 3 characters ends the one and
    starts the other. *)
Lemma chunk_text_overlap_short_inner :
  let chunks := _chunk_text (lit "abcde") 4 3 in
  chunks !! 2%nat = Some (lit "cde")
  /\ chunks !! 3%nat = Some (lit "de")
  /\ is_Some (chunks !! 4%nat)
  /\ ~ (exists shared : str,
          length shared = 3%nat
          /\ shared `suffix_of` lit "cde" /\ shared `prefix_of` lit "de").
Proof.
  split; [by vm_compute|]. split; [by vm_compute|].
  split; [vm_compute; by eexists|].
  intros (shared & Hlen & _ & [rest Hrest]).
  apply (f_equal length) in Hrest. rewrite length_app, Hlen in Hrest.
  vm_compute in Hrest. lia.
Qed.

(** C2 (as amended).  For every text and integers [0 <= overlap < size],
    the first chunk followed by every later chunk without its first
    [overlap] characters is the normalised text; and for two consecutive
    chunks, what the first holds beyond the step is the head of the second:
    exactly [overlap] characters when the second chunk has that many, and
    the whole second chunk otherwise.  When [2 * overlap <= size] only the
    final chunk can have fewer than [overlap] characters. *)
Theorem chunk_text_overlap (text : str) (size overlap : Z) :
  0 <= overlap -> overlap < size ->
  let O := Z.to_nat overlap in
  let chunks := _chunk_text text size overlap in
  undo_overlap O chunks = _norm_ws text
  /\ (forall (i : nat) (c c' : str),
        chunks !! i = Some c -> chunks !! (i + 1)%nat = Some c' ->
        drop (Z.to_nat size - O) c = take O c'
        /\ ((O <= length c')%nat ->
            length (drop (Z.to_nat size - O) c) = O)
        /\ ((length c' < O)%nat -> drop (Z.to_nat size - O) c = c')
        /\ (2 * overlap <= size -> is_Some (chunks !! (i + 2)%nat) ->
            (O <= length c')%nat)).
Proof.
  intros Hnn Hlt O chunks. subst O chunks. rewrite chunk_text_eq.
  split; [by apply undo_overlap_chunks_of|].
  intros i c c' Hc Hc'.
  pose proof (chunks_of_shared _ _ _ Hnn Hlt _ _ _ Hc Hc') as Hshared.
  split; [done|]. split; [|split].
  - intros Hlong. rewrite Hshared, length_take. lia.
  - intros Hshort. rewrite Hshared. apply take_ge. lia.
  - intros Hhalf Hnext. by eapply chunks_of_inner_long.
Qed.

Lemma chunk_text_overlap_witness :
  (0 <= 3 /\ 3 < 4)
  /\ let text := lit "  ab  cde f " in
     let O := Z.to_nat 3 in
     let chunks := _chunk_text text 4 3 in
     undo_overlap O chunks = _norm_ws text
     /\ (forall (i : nat) (c c' : str),
           chunks !! i = Some c -> chunks !! (i + 1)%nat = Some c' ->
           drop (Z.to_nat 4 - O) c = take O c'
           /\ ((O <= length c')%nat ->
               length (drop (Z.to_nat 4 - O) c) = O)
           /\ ((length c' < O)%nat -> drop (Z.to_nat 4 - O) c = c')
           /\ (2 * 3 <= 4 -> is_Some (chunks !! (i + 2)%nat) ->
               (O <= length c')%nat)).
Proof.
  split; [lia|]. apply (chunk_text_overlap (lit "  ab  cde f ") 4 3); lia.
Defined.

(** ** Chunks and their metadata *)

Section ChunkFacts.

Variables (text caption_short path filename : str) (page : option Z).
Variables (figure_no : Z) (caption_full : option str).

Let tc : chunk := _text_meta_chunk text filename page.
Let ic : chunk :=
  _image_meta_chunk caption_short path filename page figure_no caption_full.

Lemma text_chunk_type : has_type "text" tc.
Proof. done. Qed.

Lemma text_chunk_page : tc.2 !! "page" = Some (of_page page).
Proof. done. Qed.

Lemma text_chunk_schema : schema_ok tc.
Proof. left. done. Qed.

Lemma image_chunk_type : has_type "image" ic.
Proof. done. Qed.

Lemma image_chunk_not_text : ~ has_type "text" ic.
Proof. done. Qed.

Lemma image_chunk_page : ic.2 !! "page" = Some (of_page page).
Proof. done. Qed.

Lemma image_chunk_figure_no : figure_no_of ic = Some figure_no.
Proof. done. Qed.

Lemma image_chunk_path : image_path_of ic = Some path.
Proof. done. Qed.

Lemma image_chunk_caption :
  caption_of ic
  = Some (str_or (default [] caption_full) (str_or caption_short [])).
Proof. done. Qed.

Lemma image_chunk_schema : schema_ok ic.
Proof. right. unfold ic, _image_meta_chunk. cbn [snd]. repeat split; eauto. Qed.

End ChunkFacts.

Lemma image_chunks_app (l1 l2 : list chunk) :
  image_chunks (l1 ++ l2) = image_chunks l1 ++ image_chunks l2.
Proof. apply filter_app. Qed.

Lemma text_chunks_app (l1 l2 : list chunk) :
  text_chunks (l1 ++ l2) = text_chunks l1 ++ text_chunks l2.
Proof. apply filter_app. Qed.

Lemma image_chunks_texts (filename : str) (page : option Z) (l : list str) :
  image_chunks (map (fun c => _text_meta_chunk c filename page) l) = [].
Proof. by induction l. Qed.

Lemma text_chunks_texts (filename : str) (page : option Z) (l : list str) :
  text_chunks (map (fun c => _text_meta_chunk c filename page) l)
  = map (fun c => _text_meta_chunk c filename page) l.
Proof.
  induction l as [|s l IH]; [done|]. cbn [map]. unfold text_chunks in *.
  rewrite filter_cons_True by apply text_chunk_type. by rewrite IH.
Qed.

Lemma image_chunks_all (l : list chunk) :
  Forall (has_type "image") l -> image_chunks l = l.
Proof.
  induction 1 as [|c l Hc _ IH]; [done|]. unfold image_chunks in *.
  by rewrite filter_cons_True, IH.
Qed.

(** ** The disk *)

Lemma keeps_files_refl (d : Disk) : keeps_files d d.
Proof. by intros p. Qed.

Lemma keeps_files_trans (d1 d2 d3 : Disk) :
  keeps_files d1 d2 -> keeps_files d2 d3 -> keeps_files d1 d3.
Proof. intros H12 H23 p Hp. auto. Qed.

Lemma wrote_refl (d : Disk) : wrote d d [].
Proof.
  split; [by rewrite app_nil_r|]. split; [apply keeps_files_refl|].
  by intros p ?%elem_of_nil.
Qed.

Lemma wrote_trans (d1 d2 d3 : Disk) (ws ws' : list str) :
  wrote d1 d2 ws -> wrote d2 d3 ws' -> wrote d1 d3 (ws ++ ws').
Proof.
  intros (Hw & Hk & Hf) (Hw' & Hk' & Hf'). split; [|split].
  - by rewrite Hw', Hw, app_assoc.
  - by eapply keeps_files_trans.
  - intros p [Hp|Hp]%elem_of_app; auto.
Qed.

Lemma next_fault_spec (d : Disk) :
  files (next_fault d).2 = files d /\ written (next_fault d).2 = written d.
Proof. unfold next_fault. by destruct (faults d). Qed.

(** Opening a file writes nothing in full, whether it raises or not. *)
Lemma open_wb_spec (path : str) (d : Disk) :
  wrote d (open_wb path d).1 [].
Proof.
  unfold open_wb. pose proof (next_fault_spec d) as [Hf Hw].
  destruct (next_fault d) as [bad d1]. cbn [snd] in *.
  destruct bad; cbn [fst].
  - split; [by rewrite app_nil_r|]. split; [|by intros p ?%elem_of_nil].
    intros p. by rewrite Hf.
  - split; [cbn; by rewrite app_nil_r|]. split; [|by intros p ?%elem_of_nil].
    intros p Hp. cbn. rewrite Hf.
    destruct (decide (path = p)) as [->|Hne].
    + rewrite lookup_insert_eq. by eexists.
    + by rewrite lookup_insert_ne.
Qed.

(** A write that returns has written its file; one that raises has written
    nothing. *)
Lemma f_write_spec (path : str) (data : bytes) (d : Disk) :
  match f_write path data d with
  | (d', Some _) => wrote d d' [path]
  | (d', None) => wrote d d' []
  end.
Proof.
  unfold f_write. pose proof (next_fault_spec d) as [Hf Hw].
  destruct (next_fault d) as [bad d1]. cbn [snd] in *.
  destruct bad.
  - split; [by rewrite app_nil_r|]. split; [|by intros p ?%elem_of_nil].
    intros p. by rewrite Hf.
  - split; [cbn; by rewrite Hw|]. split.
    + intros p Hp. cbn. rewrite Hf.
      destruct (decide (path = p)) as [->|Hne].
      * rewrite lookup_insert_eq. by eexists.
      * by rewrite lookup_insert_ne.
    + intros p ->%list_elem_of_singleton. cbn. rewrite lookup_insert_eq.
      by eexists.
Qed.

(** ** Loops *)

Lemma io_post_ret {A} (a : A) (d : Disk) (Q : Disk -> A -> Prop)
    (E : Disk -> Prop) :
  Q d a -> io_post (io_ret a) d Q E.
Proof. done. Qed.

Lemma io_post_raise {A} (d : Disk) (Q : Disk -> A -> Prop) (E : Disk -> Prop) :
  E d -> io_post (@io_raise A) d Q E.
Proof. done. Qed.

Lemma io_post_of_option {A} (o : option A) (d : Disk)
    (Q : Disk -> A -> Prop) (E : Disk -> Prop) :
  (forall a, o = Some a -> Q d a) -> (o = None -> E d) ->
  io_post (io_of_option o) d Q E.
Proof. intros HQ HE. unfold io_post, io_of_option. destruct o; auto. Qed.

Lemma io_post_bind {A B} (m : IO A) (k : A -> IO B) (d : Disk)
    (Q : Disk -> B -> Prop) (E : Disk -> Prop) :
  io_post m d (fun d1 a => io_post (k a) d1 Q E) E ->
  io_post (io_bind m k) d Q E.
Proof. unfold io_post, io_bind. by destruct (m d) as [d1 [a|]]. Qed.

Lemma io_post_try {A} (m : IO A) (d : Disk) (Q : Disk -> option A -> Prop)
    (E : Disk -> Prop) :
  io_post m d (fun d' a => Q d' (Some a)) (fun d' => Q d' None) ->
  io_post (io_try m) d Q E.
Proof. unfold io_post, io_try. by destruct (m d) as [d1 [a|]]. Qed.

Lemma io_post_conseq {A} (m : IO A) (d : Disk) (Q Q' : Disk -> A -> Prop)
    (E E' : Disk -> Prop) :
  io_post m d Q E ->
  (forall d' a, Q d' a -> Q' d' a) -> (forall d', E d' -> E' d') ->
  io_post m d Q' E'.
Proof. unfold io_post. destruct (m d) as [d1 [a|]]; auto. Qed.

Lemma io_post_run {A} (m : IO A) (d d' : Disk) (a : A)
    (Q : Disk -> A -> Prop) (E : Disk -> Prop) :
  io_post m d Q E -> m d = (d', Some a) -> Q d' a.
Proof. unfold io_post. intros HQ Hrun. by rewrite Hrun in HQ. Qed.

(** A loop keeps an invariant of the rounds done so far. *)
Lemma io_post_for {A S} (body : S -> A -> IO S)
    (I : list A -> Disk -> S -> Prop) (E : Disk -> Prop) (l : list A) :
  (forall pre x post s d,
     l = pre ++ x :: post -> I pre d s ->
     io_post (body s x) d (I (pre ++ [x])) E) ->
  forall s d, I [] d s -> io_post (io_for body l s) d (I l) E.
Proof.
  intros Hbody.
  assert (forall todo pre s d,
            l = pre ++ todo -> I pre d s ->
            io_post (io_for body todo s) d (I l) E) as Hgen.
  { induction todo as [|x todo IH]; intros pre s d Hl HI.
    - apply io_post_ret. by rewrite Hl, app_nil_r.
    - cbn [io_for]. apply io_post_bind.
      eapply io_post_conseq; [by eapply Hbody | | done].
      intros d1 s1 HI1. cbn beta. apply (IH (pre ++ [x])); [|done].
      by rewrite <- app_assoc. }
  intros s d. by apply (Hgen l []).
Qed.

(** ** Enumerations *)

Lemma enumerate_elem {A} (start i : Z) (x : A) (l : list A) :
  (i, x) ∈ enumerate start l -> start <= i < start + len l /\ x ∈ l.
Proof.
  revert start. induction l as [|y l IH]; intros start; cbn [enumerate].
  - by intros ?%elem_of_nil.
  - unfold len in *. cbn [length].
    intros [Heq|Hin]%elem_of_cons.
    + injection Heq as -> ->. split; [lia | by left].
    + apply IH in Hin as [? ?]. split; [lia | by right].
Qed.

(** ** Numbering *)

Lemma numbered_init (root : str) (results : list chunk) :
  image_chunks results = [] -> numbered root (results, 1) [].
Proof. intros Himg. unfold numbered. cbn [fst snd]. by rewrite Himg. Qed.

Lemma numbered_texts (root filename : str) (page : option Z) (l : list str)
    (results : list chunk) (n : Z) (ws : list str) :
  numbered root (results, n) ws ->
  numbered root
    (results ++ map (fun c => _text_meta_chunk c filename page) l, n) ws.
Proof.
  unfold numbered. cbn [fst snd].
  by rewrite image_chunks_app, image_chunks_texts, app_nil_r.
Qed.

Lemma numbered_image (root cap filename p : str) (page : option Z)
    (capf : option str) (results : list chunk) (n : Z) (ws : list str) :
  numbered root (results, n) ws ->
  numbered root
    (results
     ++ [_image_meta_chunk cap (rel_path_of p root) filename page n capf],
     n + 1)
    (ws ++ [p]).
Proof.
  unfold numbered. cbn [fst snd]. intros (-> & Hfig & Hpath & Hlen).
  rewrite image_chunks_app. unfold image_chunks at 2 4 6.
  rewrite filter_cons_True by apply image_chunk_type.
  rewrite filter_nil, !omap_app, Hfig, Hpath, map_app, !length_app, Hlen.
  unfold len. rewrite length_app. cbn [length].
  split; [lia|]. split; [|done].
  rewrite Nat.add_1_r, seqZ_S. reflexivity.
Qed.

(** ** Saving an image *)

(** Creating a file and writing it in full: afterwards the file is written,
    or the operation raised and nothing is. *)
Lemma save_post (path : str) (data : option bytes) (d0 d : Disk)
    (ws : list str) :
  wrote d0 d ws ->
  io_post (let* _ := open_wb path in
           let* blob := io_of_option data in
           f_write path blob) d
    (fun d' _ => wrote d0 d' (ws ++ [path]))
    (fun d' => wrote d0 d' ws).
Proof.
  intros Hws. apply io_post_bind. unfold io_post at 1.
  pose proof (open_wb_spec path d) as Hopen.
  destruct (open_wb path d) as [d1 r]. cbn [fst] in Hopen.
  pose proof (wrote_trans _ _ _ _ _ Hws Hopen) as Hws1.
  rewrite app_nil_r in Hws1. destruct r as [[]|]; [|done].
  apply io_post_bind, io_post_of_option; [|done]. intros blob _.
  unfold io_post. pose proof (f_write_spec path blob d1) as Hwrite.
  destruct (f_write path blob d1) as [d2 [[]|]].
  - by eapply wrote_trans.
  - pose proof (wrote_trans _ _ _ _ _ Hws1 Hwrite) as Hws2.
    by rewrite app_nil_r in Hws2.
Qed.

Lemma pix_save_post (pix : Pixmap) (path : str) (d0 d : Disk)
    (ws : list str) :
  wrote d0 d ws ->
  io_post (pix_save pix path) d
    (fun d' _ => wrote d0 d' (ws ++ [path]))
    (fun d' => wrote d0 d' ws).
Proof.
  intros Hws. unfold pix_save. apply io_post_bind, io_post_of_option; [|done].
  intros data Hdata. apply io_post_bind.
  pose proof (save_post path (Some data) d0 d ws Hws) as Hsave.
  unfold io_post in *. unfold io_bind, io_of_option in Hsave.
  destruct (open_wb path d) as [d1 [[]|]]; [|done]. exact Hsave.
Qed.

(** ** The loop invariant *)

Lemma loop_inv_texts (root filename : str) (page : option Z)
    (P : chunk -> Prop) (d0 d : Disk) (results : list chunk) (n : Z)
    (ws : list str) (l : list str) :
  (forall s, P (_text_meta_chunk s filename page)) ->
  loop_inv root P d0 d (results, n) ws ->
  loop_inv root P d0 d
    (results ++ map (fun c => _text_meta_chunk c filename page) l, n) ws.
Proof.
  intros HP (Hw & Hn & HF). split; [done|]. split.
  - by apply numbered_texts.
  - cbn [fst] in *. apply Forall_app. split; [done|].
    apply Forall_forall. intros c (s & -> & _)%list_elem_of_fmap. apply HP.
Qed.

Lemma loop_inv_image (root cap filename p : str) (page : option Z)
    (capf : option str) (P : chunk -> Prop) (d0 d d' : Disk)
    (results : list chunk) (n : Z) (ws : list str) :
  P (_image_meta_chunk cap (rel_path_of p root) filename page n capf) ->
  wrote d0 d' (ws ++ [p]) ->
  loop_inv root P d0 d (results, n) ws ->
  loop_inv root P d0 d'
    (results
     ++ [_image_meta_chunk cap (rel_path_of p root) filename page n capf],
     n + 1)
    (ws ++ [p]).
Proof.
  intros HP Hw' (Hw & Hn & HF). split; [done|]. split.
  - by apply numbered_image.
  - cbn [fst] in *. apply Forall_app. split; [done|]. by constructor.
Qed.

Lemma loop_inv_skip (root : str) (P : chunk -> Prop) (d0 d d' : Disk)
    (st : LoopState) (ws : list str) :
  wrote d0 d' ws -> loop_inv root P d0 d st ws -> loop_inv root P d0 d' st ws.
Proof. intros Hw' (Hw & Hn & HF). by split. Qed.

(** ** The PDF loader *)

Section Pdf.

Variable isalnum : char -> bool.
Variable w : World.
Variables (doc : PdfDoc) (root assets_dir filename : str).
Variable d0 : Disk.

Let P : chunk -> Prop := paged_form filename (len (doc_pages doc)).

Let img_path (pidx idx : Z) : str :=
  path_join assets_dir (pdf_img_name isalnum filename pidx idx).

(** The [try] of the image loop either wrote the file of the image and
    built its chunk, or wrote nothing. *)
Lemma pdf_try_image_post (cap : str) (pidx idx xref n : Z) (d : Disk)
    (ws : list str) :
  wrote d0 d ws ->
  io_post (pdf_try_image isalnum w doc root assets_dir filename cap pidx idx
             xref n) d
    (fun d' c =>
       wrote d0 d' (ws ++ [img_path pidx idx])
       /\ c = _image_meta_chunk cap (rel_path_of (img_path pidx idx) root)
                filename (Some (pidx + 1)) n (Some cap))
    (fun d' => wrote d0 d' ws).
Proof.
  intros Hws. unfold pdf_try_image.
  apply io_post_bind, io_post_of_option; [|done]. intros pix _.
  apply io_post_bind.
  eapply io_post_conseq
    with (Q := fun d1 _ => d1 = d) (E := fun d1 => d1 = d).
  - destruct (pix_n pix >? 4); [|done]. by apply io_post_of_option.
  - intros d1 pix' ->. apply io_post_bind.
    eapply io_post_conseq; [by apply pix_save_post | | done].
    intros d' u Hw'. by apply io_post_ret.
  - by intros d1 ->.
Qed.

Lemma pdf_image_step_post (cap : str) (pidx : Z) (st : LoopState)
    (img : Z * Z) (d : Disk) (ws : list str) :
  0 <= pidx < len (doc_pages doc) ->
  loop_inv root P d0 d st ws ->
  io_post (pdf_image_step isalnum w doc root assets_dir filename cap pidx st
             img) d
    (fun d' st' =>
       loop_inv root P d0 d' st' (ws ++ [img_path pidx img.1])
       \/ loop_inv root P d0 d' st' ws)
    (fun _ => False).
Proof.
  intros Hpidx Hinv. destruct st as [results n], img as [idx xref].
  unfold pdf_image_step. apply io_post_bind, io_post_try.
  pose proof Hinv as (Hw & _ & _).
  eapply io_post_conseq;
    [by apply pdf_try_image_post | | ]; cbn beta.
  - intros d' c [Hw' ->]. apply io_post_ret. left.
    eapply loop_inv_image; [|done..].
    exists (pidx + 1). split; [lia|]. right. by do 4 eexists.
  - intros d' Hw'. apply io_post_ret. right. by eapply loop_inv_skip.
Qed.

Lemma pdf_page_step_post (st : LoopState) (p : Z * PdfPage) (d : Disk)
    (cands : list str) :
  0 <= p.1 < len (doc_pages doc) ->
  (exists ws, loop_inv root P d0 d st ws /\ ws `sublist_of` cands) ->
  io_post (pdf_page_step isalnum w doc root assets_dir filename st p) d
    (fun d' st' =>
       exists ws, loop_inv root P d0 d' st' ws
                  /\ ws `sublist_of`
                       cands ++ pdf_page_paths isalnum assets_dir filename p)
    (fun _ => False).
Proof.
  intros Hpidx (ws & Hinv & Hsub). destruct st as [results n], p as [pidx page].
  cbn [fst] in Hpidx. unfold pdf_page_step.
  assert (loop_inv root P d0 d
            (results
             ++ map (fun c => _text_meta_chunk c filename (Some (pidx + 1)))
                  (_chunk_text (page_text page) CHUNK_SIZE CHUNK_OVERLAP), n)
            ws) as Hinv'.
  { apply loop_inv_texts; [|done]. intros s. exists (pidx + 1).
    split; [lia|]. left. by eexists. }
  unfold pdf_page_paths. cbn [fst snd].
  destruct (page_images page) as [|x xs] eqn:Himgs; cbn [is_empty].
  { apply io_post_ret. exists ws. split; [done|]. cbn. by rewrite app_nil_r. }
  eapply io_post_conseq;
    [apply (io_post_for _
       (fun pre d' st' =>
          exists ws', loop_inv root P d0 d' st' ws'
                      /\ ws' `sublist_of`
                           cands ++ map (fun ix : Z * Z => img_path pidx ix.1)
                                      pre)) | |].
  - intros pre img post st1 d1 _ (ws1 & Hinv1 & Hsub1).
    eapply io_post_conseq;
      [by apply pdf_image_step_post | | done]; cbn beta.
    intros d2 st2 [Hinv2|Hinv2]; eexists; (split; [exact Hinv2|]);
      rewrite map_app, app_assoc; cbn [map].
    + by apply sublist_app.
    + by apply sublist_inserts_r.
  - exists ws. split; [done|]. cbn [map]. by rewrite app_nil_r.
  - done.
  - done.
Qed.

End Pdf.

Lemma assets_dir_run (isalnum : char -> bool) (w : World)
    (filepath root : str) (d : Disk) :
  _assets_dir isalnum w filepath root d
  = (d, if makedirs_ok w (assets_dir_of isalnum filepath root)
        then Some (assets_dir_of isalnum filepath root) else None).
Proof.
  unfold _assets_dir, _ensure_dir, io_bind, assets_dir_of.
  by destruct (makedirs_ok w _).
Qed.

Lemma loop_inv_init (root : str) (P : chunk -> Prop) (d : Disk)
    (results : list chunk) :
  image_chunks results = [] -> Forall P results ->
  loop_inv root P d d (results, 1) [].
Proof.
  intros Himg HP. split; [apply wrote_refl|]. split; [|done].
  by apply numbered_init.
Qed.

(** What a run of the PDF loader that returns has done: it wrote some of
    the files it names for the images, in their order, and returns results
    numbered after them, every chunk being one for a page of the document.
    When it raises, the disk is as before. *)
Lemma pdf_load_post (isalnum : char -> bool) (w : World) (filepath root : str)
    (d : Disk) :
  io_post (_load_pdf_with_images isalnum w filepath root) d
    (fun d' chunks =>
       exists doc ws n,
         fitz_open w filepath = Some doc
         /\ loop_inv root
              (paged_form (basename filepath) (len (doc_pages doc)))
              d d' (chunks, n) ws
         /\ ws `sublist_of` pdf_candidates isalnum filepath root doc)
    (fun d' => d' = d).
Proof.
  unfold _load_pdf_with_images.
  apply io_post_bind, io_post_of_option; [|done]. intros doc Hdoc.
  apply io_post_bind. unfold io_post at 1. rewrite assets_dir_run.
  destruct (makedirs_ok w _); [|done]. apply io_post_bind.
  eapply io_post_conseq;
    [apply (io_post_for _
       (fun pre d' st' =>
          exists ws,
            loop_inv root
              (paged_form (basename filepath) (len (doc_pages doc)))
              d d' st' ws
            /\ ws `sublist_of`
                 concat (map (pdf_page_paths isalnum
                                (assets_dir_of isalnum filepath root)
                                (basename filepath)) pre))) | |].
  - intros pre p post st d1 Hl Hinv.
    assert (p ∈ enumerate 0 (doc_pages doc)) as Hp.
    { rewrite Hl. apply elem_of_app. right. by left. }
    destruct p as [pidx page]. apply enumerate_elem in Hp as [Hpidx _].
    eapply io_post_conseq;
      [apply pdf_page_step_post; [exact Hpidx | exact Hinv] | | done].
    cbn beta. intros d2 st2 (ws2 & Hinv2 & Hsub2). exists ws2.
    split; [done|]. rewrite map_app, concat_app. cbn [map concat].
    by rewrite app_nil_r.
  - exists []. split; [by apply loop_inv_init | apply sublist_nil_l].
  - cbn beta. intros d' [results n] (ws & Hinv & Hsub). apply io_post_ret.
    by exists doc, ws, n.
  - done.
Qed.

(** ** The DOCX loader *)

Section Docx.

Variable isalnum : char -> bool.
Variables (root assets_dir filename : str).
Variable d0 : Disk.

Let P : chunk -> Prop := chunk_form filename None.

Let part_path (ip : Z * DocxPart) : str :=
  path_join assets_dir
    (docx_img_name isalnum filename ip.1 (docx_ext (part_content_type ip.2))).

Lemma docx_try_part_post (cap : str) (i : Z) (part : DocxPart) (n : Z)
    (d : Disk) (ws : list str) :
  wrote d0 d ws ->
  io_post (docx_try_part isalnum root assets_dir filename cap i part n) d
    (fun d' c =>
       wrote d0 d' (ws ++ [part_path (i, part)])
       /\ c = _image_meta_chunk cap (rel_path_of (part_path (i, part)) root)
                filename None n (Some cap))
    (fun d' => wrote d0 d' ws).
Proof.
  intros Hws. unfold docx_try_part.
  pose proof (save_post (part_path (i, part)) (part_blob part) d0 d ws Hws)
    as Hsave.
  unfold io_post, io_bind in *.
  destruct (open_wb _ d) as [d1 [[]|]]; [|done].
  unfold io_of_option in *. destruct (part_blob part) as [blob|]; [|done].
  destruct (f_write _ blob d1) as [d2 [[]|]]; [|done]. by split.
Qed.

Lemma docx_part_step_post (cap : str) (st : LoopState) (ip : Z * DocxPart)
    (d : Disk) (ws : list str) :
  loop_inv root P d0 d st ws ->
  io_post (docx_part_step isalnum root assets_dir filename cap st ip) d
    (fun d' st' =>
       loop_inv root P d0 d' st' (ws ++ [part_path ip])
       \/ loop_inv root P d0 d' st' ws)
    (fun _ => False).
Proof.
  intros Hinv. destruct st as [results n], ip as [i part].
  unfold docx_part_step. apply io_post_bind, io_post_try.
  pose proof Hinv as (Hw & _ & _).
  eapply io_post_conseq;
    [by apply docx_try_part_post | | ]; cbn beta.
  - intros d' c [Hw' ->]. apply io_post_ret. left.
    eapply loop_inv_image; [|done..]. right. by do 4 eexists.
  - intros d' Hw'. apply io_post_ret. right. by eapply loop_inv_skip.
Qed.

End Docx.

(** What a run of the DOCX loader that returns has done. *)
Lemma docx_load_post (isalnum : char -> bool) (w : World)
    (filepath root : str) (d : Disk) :
  io_post (_load_docx_with_images isalnum w filepath root) d
    (fun d' chunks =>
       exists doc ws n,
         docx_Document w filepath = Some doc
         /\ loop_inv root (chunk_form (basename filepath) None)
              d d' (chunks, n) ws
         /\ ws `sublist_of` docx_candidates isalnum filepath root doc)
    (fun d' => d' = d).
Proof.
  unfold _load_docx_with_images.
  apply io_post_bind, io_post_of_option; [|done]. intros doc Hdoc.
  apply io_post_bind. unfold io_post at 1. rewrite assets_dir_run.
  destruct (makedirs_ok w _); [|done]. apply io_post_bind.
  eapply io_post_conseq;
    [apply (io_post_for _
       (fun pre d' st' =>
          exists ws,
            loop_inv root (chunk_form (basename filepath) None) d d' st' ws
            /\ ws `sublist_of`
                 map (fun ip : Z * DocxPart =>
                        path_join (assets_dir_of isalnum filepath root)
                          (docx_img_name isalnum (basename filepath) ip.1
                             (docx_ext (part_content_type ip.2)))) pre)) | |].
  - intros pre ip post st d1 _ (ws1 & Hinv1 & Hsub1).
    eapply io_post_conseq;
      [by apply docx_part_step_post | | done]; cbn beta.
    intros d2 st2 [Hinv2|Hinv2]; eexists; (split; [exact Hinv2|]);
      rewrite map_app; cbn [map].
    + by apply sublist_app.
    + by apply sublist_inserts_r.
  - exists []. split; [|apply sublist_nil_l].
    apply loop_inv_init; [apply image_chunks_texts|].
    apply Forall_forall. intros c (s & -> & _)%list_elem_of_fmap.
    left. by eexists.
  - cbn beta. intros d' [results n] (ws & Hinv & Hsub). apply io_post_ret.
    by exists doc, ws, n.
  - done.
Qed.

(** ** The PPTX loader *)

(** A loop whose rounds leave the disk alone leaves the disk alone, and its
    outcome does not depend on the disk. *)
Lemma io_for_pure {A S} (body : S -> A -> IO S) (l : list A) :
  (forall s x, exists r, forall d, body s x d = (d, r)) ->
  forall s, exists r, forall d, io_for body l s d = (d, r).
Proof.
  intros Hbody. induction l as [|x l IH]; intros s; [by eexists|].
  destruct (Hbody s x) as [[s1|] Hr].
  - destruct (IH s1) as [r Hrest]. exists r. intros d. cbn [io_for].
    unfold io_bind. by rewrite Hr.
  - exists None. intros d. cbn [io_for]. unfold io_bind. by rewrite Hr.
Qed.

Lemma pptx_slide_text_pure (slide : Slide) :
  exists r, forall d, pptx_slide_text slide d = (d, r).
Proof.
  unfold pptx_slide_text.
  destruct (io_for_pure pptx_text_step slide) with (s := @nil str)
    as [[texts|] Hr].
  - intros texts shape. unfold pptx_text_step, io_bind, io_of_option, io_ret.
    destruct (shape_has_text_frame shape) as [[]|], (shape_text shape);
      by eexists.
  - eexists. intros d. unfold io_bind. by rewrite Hr.
  - exists None. intros d. unfold io_bind. by rewrite Hr.
Qed.

Section Pptx.

Variable isalnum : char -> bool.
Variables (prs : PptxDoc) (root assets_dir filename : str).
Variable d0 : Disk.

Let P : chunk -> Prop := pptx_form isalnum root assets_dir filename prs.

Variables (sidx : Z) (slide : Slide) (slide_text : str).
Hypothesis slide_in_deck : (sidx, slide) ∈ enumerate 1 prs.
Hypothesis slide_text_run :
  forall d, pptx_slide_text slide d = (d, Some slide_text).

Let caption_ctx : str := py_prefix 300 (_norm_ws slide_text).

Lemma pptx_try_shape_post (shape : Shape) (n : Z) (d : Disk) (ws : list str) :
  shape ∈ slide ->
  wrote d0 d ws ->
  io_post (pptx_try_shape isalnum root assets_dir filename caption_ctx sidx
             shape n) d
    (fun d' r =>
       match r with
       | Some c =>
           P c /\ exists p,
             wrote d0 d' (ws ++ [p])
             /\ exists cap capf,
                  c = _image_meta_chunk cap (rel_path_of p root) filename
                        (Some sidx) n capf
       | None => wrote d0 d' ws
       end)
    (fun d' => wrote d0 d' ws).
Proof.
  intros Hshape Hws. unfold pptx_try_shape.
  apply io_post_bind, io_post_of_option; [|done]. intros ty Hty.
  case_bool_decide as Hpic; [|by apply io_post_ret]. subst ty.
  apply io_post_bind, io_post_of_option; [|done]. intros img Himg.
  apply io_post_bind, io_post_of_option; [|done]. intros fname Hfname.
  set (path := path_join assets_dir _).
  pose proof (save_post path (image_blob img) d0 d ws Hws) as Hsave.
  unfold io_post, io_bind in *.
  destruct (open_wb _ d) as [d1 [[]|]]; [|done].
  unfold io_of_option in *. destruct (image_blob img) as [blob|]; [|done].
  destruct (f_write _ blob d1) as [d2 [[]|]]; [|done].
  unfold io_ret. split.
  - right. exists sidx, slide, shape, img, fname, slide_text, n.
    by repeat split.
  - exists path. split; [done|]. by do 2 eexists.
Qed.

Lemma pptx_shape_step_post (st : LoopState) (shape : Shape) (d : Disk) :
  shape ∈ slide ->
  (exists ws, loop_inv root P d0 d st ws) ->
  io_post (pptx_shape_step isalnum root assets_dir filename caption_ctx sidx
             st shape) d
    (fun d' st' => exists ws, loop_inv root P d0 d' st' ws)
    (fun _ => False).
Proof.
  intros Hshape [ws Hinv]. destruct st as [results n].
  unfold pptx_shape_step. apply io_post_bind, io_post_try.
  pose proof Hinv as (Hw & _ & _).
  eapply io_post_conseq;
    [by apply pptx_try_shape_post | | ]; cbn beta.
  - intros d' [c|].
    + intros (HP & p & Hw' & cap & capf & ->). apply io_post_ret.
      exists (ws ++ [p]). by eapply loop_inv_image.
    + intros Hw'. apply io_post_ret. exists ws. by eapply loop_inv_skip.
  - intros d' Hw'. apply io_post_ret. exists ws. by eapply loop_inv_skip.
Qed.

End Pptx.

Lemma pptx_slide_step_post (isalnum : char -> bool) (prs : PptxDoc)
    (root assets_dir filename : str) (d0 : Disk) (st : LoopState)
    (s : Z * Slide) (d : Disk) :
  s ∈ enumerate 1 prs ->
  (exists ws,
     loop_inv root (pptx_form isalnum root assets_dir filename prs) d0 d st
       ws) ->
  io_post (pptx_slide_step isalnum root assets_dir filename st s) d
    (fun d' st' =>
       exists ws,
         loop_inv root (pptx_form isalnum root assets_dir filename prs) d0 d'
           st' ws)
    (fun d' => exists ws, wrote d0 d' ws).
Proof.
  intros Hs [ws Hinv]. destruct st as [results n], s as [sidx slide].
  unfold pptx_slide_step. apply io_post_bind.
  destruct (pptx_slide_text_pure slide) as [[slide_text|] Htext];
    unfold io_post at 1; rewrite Htext; [|exists ws; apply Hinv].
  pose proof (enumerate_elem _ _ _ _ Hs) as [Hsidx _].
  eapply io_post_conseq;
    [apply (io_post_for _
       (fun _ d' st' =>
          exists ws',
            loop_inv root (pptx_form isalnum root assets_dir filename prs)
              d0 d' st' ws')) | |].
  - intros pre shape post st1 d1 Hl Hinv1.
    eapply pptx_shape_step_post; [done.. | | done].
    rewrite Hl. apply elem_of_app. right. by left.
  - exists ws. apply loop_inv_texts; [|done]. intros t. left.
    exists t, sidx. split; [lia | done].
  - done.
  - done.
Qed.

(** What a run of the PPTX loader has done: when it returns, it wrote some
    files and returns results numbered after them, every chunk being a text
    chunk of a slide or the chunk of a picture of the deck; when it raises,
    it may have written files all the same. *)
Lemma pptx_load_post (isalnum : char -> bool) (w : World)
    (filepath root : str) (d : Disk) :
  io_post (_load_pptx_with_images isalnum w filepath root) d
    (fun d' chunks =>
       exists prs ws n,
         pptx_Presentation w filepath = Some prs
         /\ loop_inv root
              (pptx_form isalnum root (assets_dir_of isalnum filepath root)
                 (basename filepath) prs)
              d d' (chunks, n) ws)
    (fun d' => exists ws, wrote d d' ws).
Proof.
  unfold _load_pptx_with_images.
  apply io_post_bind, io_post_of_option;
    [|intros; exists []; apply wrote_refl]. intros prs Hprs.
  apply io_post_bind. unfold io_post at 1. rewrite assets_dir_run.
  destruct (makedirs_ok w _); [|exists []; apply wrote_refl].
  apply io_post_bind.
  eapply io_post_conseq;
    [apply (io_post_for _
       (fun _ d' st' =>
          exists ws,
            loop_inv root
              (pptx_form isalnum root (assets_dir_of isalnum filepath root)
                 (basename filepath) prs)
              d d' st' ws)) | |].
  - intros pre s post st d1 Hl Hinv.
    apply pptx_slide_step_post; [|done].
    rewrite Hl. apply elem_of_app. right. by left.
  - exists []. by apply loop_inv_init.
  - cbn beta. intros d' [results n] (ws & Hinv). apply io_post_ret.
    by exists prs, ws, n.
  - done.
Qed.

(** ** The plain loader and the dispatcher *)

Lemma load_plain_run (w : World) (filepath root : str) (d : Disk) :
  _load_plain w filepath root d
  = (d, Some (map (fun c => _text_meta_chunk c (basename filepath) None)
                (_chunk_text (default [] (read_text w filepath))
                   CHUNK_SIZE CHUNK_OVERLAP))).
Proof. reflexivity. Qed.


(** ** All loaders *)

Lemma chunk_form_schema (filename : str) (page : option Z) (c : chunk) :
  chunk_form filename page c -> schema_ok c.
Proof.
  intros [(s & ->)|(cap & path & n & capf & ->)].
  - apply text_chunk_schema.
  - apply image_chunk_schema.
Qed.

Lemma paged_form_schema (filename : str) (n : Z) (c : chunk) :
  paged_form filename n c -> schema_ok c.
Proof. intros (p & _ & Hc). by eapply chunk_form_schema. Qed.

Lemma pptx_form_paged (isalnum : char -> bool) (root assets_dir filename : str)
    (prs : PptxDoc) (c : chunk) :
  pptx_form isalnum root assets_dir filename prs c ->
  paged_form filename (len prs) c.
Proof.
  intros [(s & p & Hp & ->)|Himg].
  - exists p. split; [done|]. left. by eexists.
  - destruct Himg as (sidx & slide & shape & img & fname & slide_text & n
                      & Hslide & _ & _ & _ & _ & _ & Hc).
    apply enumerate_elem in Hslide as [Hsidx _]. exists sidx.
    split; [lia|]. right. cbn zeta in Hc. by do 4 eexists.
Qed.

(** Every loader, when it returns, has written some files and returns
    results numbered after them, all of the schema; when it raises it may
    have written files. *)
Lemma run_loader_post (isalnum : char -> bool) (w : World) (k : Loader)
    (filepath root : str) (d : Disk) :
  io_post (run_loader isalnum w k filepath root) d
    (fun d' chunks =>
       exists ws n,
         wrote d d' ws /\ numbered root (chunks, n) ws
         /\ Forall schema_ok chunks)
    (fun d' => exists ws, wrote d d' ws).
Proof.
  destruct k; cbn [run_loader].
  - eapply io_post_conseq; [apply pdf_load_post | |]; cbn beta.
    + intros d' chunks (doc & ws & n & _ & (Hw & Hn & HF) & _).
      exists ws, n. split; [done|]. split; [done|].
      eapply Forall_impl; [exact HF|]. apply paged_form_schema.
    + intros d' ->. exists []. apply wrote_refl.
  - eapply io_post_conseq; [apply docx_load_post | |]; cbn beta.
    + intros d' chunks (doc & ws & n & _ & (Hw & Hn & HF) & _).
      exists ws, n. split; [done|]. split; [done|].
      eapply Forall_impl; [exact HF|]. apply chunk_form_schema.
    + intros d' ->. exists []. apply wrote_refl.
  - eapply io_post_conseq; [apply pptx_load_post | |]; cbn beta.
    + intros d' chunks (prs & ws & n & _ & (Hw & Hn & HF)).
      exists ws, n. split; [done|]. split; [done|].
      eapply Forall_impl; [exact HF|]. intros c Hc.
      eapply paged_form_schema, pptx_form_paged, Hc.
    + done.
  - unfold io_post. rewrite load_plain_run. exists [], 1.
    split; [apply wrote_refl|]. split.
    + apply numbered_init, image_chunks_texts.
    + apply Forall_forall. intros c (s & -> & _)%list_elem_of_fmap.
      apply text_chunk_schema.
Qed.

Lemma run_loader_numbered (isalnum : char -> bool) (w : World) (k : Loader)
    (filepath root : str) (d d' : Disk) (chunks : list chunk) :
  run_loader isalnum w k filepath root d = (d', Some chunks) ->
  let N := (length (written d') - length (written d))%nat in
  omap figure_no_of (image_chunks chunks) = seqZ 1 (Z.of_nat N)
  /\ length (image_chunks chunks) = N.
Proof.
  intros Hrun.
  pose proof (io_post_run _ _ _ _ _ _ (run_loader_post _ _ _ _ _ _) Hrun)
    as (ws & n & (Hw & _) & (_ & Hfig & _ & Hlen) & _).
  cbn [fst] in *. rewrite Hw, length_app.
  replace (length (written d) + length ws - length (written d))%nat
    with (length ws) by lia.
  by split.
Qed.

(** C3.  Whatever the loader, a load call that returns after saving [N]
    images returns image chunks whose figure numbers are exactly
    [1, 2, ..., N], in the order of the chunks: an image whose extraction or
    write raised got no number.  The count starts at 1 in every call: a
    second call, on the disk the first one left, numbers its images from 1
    again. *)
Theorem figure_numbers_1_to_N (isalnum : char -> bool) (w : World)
    (k1 k2 : Loader) (file1 file2 root1 root2 : str) (d0 d1 d2 : Disk)
    (chunks1 chunks2 : list chunk) :
  run_loader isalnum w k1 file1 root1 d0 = (d1, Some chunks1) ->
  run_loader isalnum w k2 file2 root2 d1 = (d2, Some chunks2) ->
  let N1 := (length (written d1) - length (written d0))%nat in
  let N2 := (length (written d2) - length (written d1))%nat in
  (omap figure_no_of (image_chunks chunks1) = seqZ 1 (Z.of_nat N1)
   /\ length (image_chunks chunks1) = N1)
  /\ (omap figure_no_of (image_chunks chunks2) = seqZ 1 (Z.of_nat N2)
      /\ length (image_chunks chunks2) = N2).
Proof.
  intros Hrun1 Hrun2. split; by eapply run_loader_numbered.
Qed.

(** C4.  Every chunk a loader returns has the schema: a chunk of type
    [text] has none of the keys [image_path], [figure_no] and [caption]; a
    chunk of type [image] has all three, the caption being a string. *)
Theorem chunks_have_schema (isalnum : char -> bool) (w : World) (k : Loader)
    (filepath root : str) (d d' : Disk) (chunks : list chunk) :
  run_loader isalnum w k filepath root d = (d', Some chunks) ->
  Forall schema_ok chunks.
Proof.
  intros Hrun.
  by pose proof (io_post_run _ _ _ _ _ _ (run_loader_post _ _ _ _ _ _) Hrun)
    as (ws & n & _ & _ & HF).
Qed.

Lemma figure_numbers_1_to_N_witness :
  let d1 := demo_disk_after PdfLoader (lit "docs/Report.PDF") faulty_disk in
  let chunks1 := demo_chunks PdfLoader (lit "docs/Report.PDF") faulty_disk in
  let d2 := demo_disk_after PptxLoader (lit "docs/deck.pptx") d1 in
  let chunks2 := demo_chunks PptxLoader (lit "docs/deck.pptx") d1 in
  let N1 := (length (written d1) - length (written faulty_disk))%nat in
  let N2 := (length (written d2) - length (written d1))%nat in
  (demo_run PdfLoader (lit "docs/Report.PDF") faulty_disk = (d1, Some chunks1)
   /\ demo_run PptxLoader (lit "docs/deck.pptx") d1 = (d2, Some chunks2))
  /\ (N1 = 1%nat /\ N2 = 2%nat)
  /\ (omap figure_no_of (image_chunks chunks1) = seqZ 1 (Z.of_nat N1)
      /\ length (image_chunks chunks1) = N1)
  /\ (omap figure_no_of (image_chunks chunks2) = seqZ 1 (Z.of_nat N2)
      /\ length (image_chunks chunks2) = N2).
Proof.
  split; [split; by_evaluation|].
  split; [split; by_evaluation|].
  apply (figure_numbers_1_to_N ascii_isalnum demo_world PdfLoader PptxLoader
           (lit "docs/Report.PDF") (lit "docs/deck.pptx")
           (lit "uploads") (lit "uploads") faulty_disk);
    by_evaluation.
Defined.

Lemma chunks_have_schema_witness :
  demo_run DocxLoader (lit "docs/memo.docx") empty_disk
  = (demo_disk_after DocxLoader (lit "docs/memo.docx") empty_disk,
     Some (demo_chunks DocxLoader (lit "docs/memo.docx") empty_disk))
  /\ Forall schema_ok (demo_chunks DocxLoader (lit "docs/memo.docx") empty_disk).
Proof.
  split; [by_evaluation|].
  apply (chunks_have_schema ascii_isalnum demo_world DocxLoader
           (lit "docs/memo.docx") (lit "uploads") empty_disk
           (demo_disk_after DocxLoader (lit "docs/memo.docx") empty_disk)).
  by_evaluation.
Defined.

(** ** The text chunks do not depend on the disk *)

Lemma text_chunks_snoc_image (results : list chunk)
    (cap path filename : str) (page : option Z) (n : Z) (capf : option str) :
  text_chunks
    (results ++ [_image_meta_chunk cap path filename page n capf])
  = text_chunks results.
Proof.
  rewrite text_chunks_app. unfold text_chunks at 2.
  rewrite filter_cons_False by apply image_chunk_not_text.
  by rewrite filter_nil, app_nil_r.
Qed.

(** A loop whose rounds add text chunks that depend on the item only, or
    raise for an item whatever the disk, adds the text chunks of its items,
    or raises, whatever the disk. *)
Lemma io_for_texts {A} (body : LoopState -> A -> IO LoopState)
    (T : A -> option (list chunk)) (l : list A) :
  (forall s x d, x ∈ l ->
     texts_of <$> (body s x d).2 = (fun t => texts_of s ++ t) <$> T x) ->
  forall s d,
    texts_of <$> (io_for body l s d).2
    = (fun ts => texts_of s ++ ts) <$> gather T l.
Proof.
  induction l as [|x l IH]; intros Hbody s d.
  { cbn. by rewrite app_nil_r. }
  cbn [io_for gather]. unfold io_bind.
  pose proof (Hbody s x d ltac:(left)) as Hx.
  destruct (body s x d) as [d1 [s1|]], (T x) as [t|]; cbn in Hx; try done.
  rewrite IH by (intros; apply Hbody; by right).
  injection Hx as Hx. rewrite Hx.
  destruct (gather T l) as [ts|]; cbn; [|done]. by rewrite app_assoc.
Qed.

Lemma gather_nothing {A} (l : list A) :
  gather (fun _ : A => Some (@nil chunk)) l = Some [].
Proof. induction l as [|x l IH]; [done|]. cbn. by rewrite IH. Qed.

Lemma pdf_image_step_texts (isalnum : char -> bool) (w : World) (doc : PdfDoc)
    (root assets_dir filename cap : str) (pidx : Z) (st : LoopState)
    (img : Z * Z) (d : Disk) :
  texts_of <$> (pdf_image_step isalnum w doc root assets_dir filename cap
                  pidx st img d).2
  = (fun t => texts_of st ++ t) <$> Some [].
Proof.
  destruct st as [results n], img as [idx xref].
  unfold pdf_image_step, io_bind, io_try.
  pose proof (pdf_try_image_post isalnum w doc root assets_dir filename d cap
                pidx idx xref n d [] (wrote_refl d)) as Hpost.
  unfold io_post in Hpost.
  destruct (pdf_try_image _ _ _ _ _ _ _ _ _ _ _ d) as [d1 [c|]]; cbn.
  - destruct Hpost as [_ ->]. unfold texts_of. cbn [fst].
    by rewrite text_chunks_snoc_image, app_nil_r.
  - by rewrite app_nil_r.
Qed.

Lemma pdf_page_step_texts (isalnum : char -> bool) (w : World) (doc : PdfDoc)
    (root assets_dir filename : str) (st : LoopState) (p : Z * PdfPage)
    (d : Disk) :
  texts_of <$> (pdf_page_step isalnum w doc root assets_dir filename st p d).2
  = (fun t => texts_of st ++ t) <$> pdf_page_texts filename p.
Proof.
  destruct st as [results n], p as [pidx page].
  unfold pdf_page_step, pdf_page_texts. cbn [fst snd].
  assert (texts_of
            (results
             ++ map (fun c => _text_meta_chunk c filename (Some (pidx + 1)))
                  (_chunk_text (page_text page) CHUNK_SIZE CHUNK_OVERLAP), n)
          = texts_of (results, n)
            ++ map (fun c => _text_meta_chunk c filename (Some (pidx + 1)))
                 (_chunk_text (page_text page) CHUNK_SIZE CHUNK_OVERLAP))
    as Htexts.
  { unfold texts_of. cbn [fst].
    by rewrite text_chunks_app, text_chunks_texts. }
  destruct (is_empty (page_images page)).
  { unfold io_ret. cbn [snd fmap option_fmap option_map]. by rewrite Htexts. }
  rewrite (io_for_texts _ (fun _ => Some []))
    by (intros; apply pdf_image_step_texts).
  rewrite gather_nothing. cbn [fmap option_fmap option_map].
  by rewrite Htexts, app_nil_r.
Qed.

Lemma docx_part_step_texts (isalnum : char -> bool)
    (root assets_dir filename cap : str) (st : LoopState) (ip : Z * DocxPart)
    (d : Disk) :
  texts_of <$> (docx_part_step isalnum root assets_dir filename cap st ip d).2
  = (fun t => texts_of st ++ t) <$> Some [].
Proof.
  destruct st as [results n], ip as [i part].
  unfold docx_part_step, io_bind, io_try.
  pose proof (docx_try_part_post isalnum root assets_dir filename d cap i part
                n d [] (wrote_refl d)) as Hpost.
  unfold io_post in Hpost.
  destruct (docx_try_part _ _ _ _ _ _ _ _ d) as [d1 [c|]]; cbn.
  - destruct Hpost as [_ ->]. unfold texts_of. cbn [fst].
    by rewrite text_chunks_snoc_image, app_nil_r.
  - by rewrite app_nil_r.
Qed.

(** A chunk the [try] of the picture loop builds is an image chunk. *)
Lemma pptx_try_shape_image (isalnum : char -> bool)
    (root assets_dir filename caption_ctx : str) (sidx : Z) (shape : Shape)
    (n : Z) (d d' : Disk) (c : chunk) :
  pptx_try_shape isalnum root assets_dir filename caption_ctx sidx shape n d
  = (d', Some (Some c)) ->
  exists cap path capf,
    c = _image_meta_chunk cap path filename (Some sidx) n capf.
Proof.
  unfold pptx_try_shape, io_bind, io_of_option, io_ret.
  intros Hrun. repeat case_match; simplify_eq. by do 3 eexists.
Qed.

Lemma pptx_shape_step_texts (isalnum : char -> bool)
    (root assets_dir filename caption_ctx : str) (sidx : Z) (st : LoopState)
    (shape : Shape) (d : Disk) :
  texts_of <$> (pptx_shape_step isalnum root assets_dir filename caption_ctx
                  sidx st shape d).2
  = (fun t => texts_of st ++ t) <$> Some [].
Proof.
  destruct st as [results n]. unfold pptx_shape_step, io_bind, io_try.
  destruct (pptx_try_shape _ _ _ _ _ _ _ _ d) as [d1 [[c|]|]] eqn:Htry; cbn;
    try by rewrite app_nil_r.
  apply pptx_try_shape_image in Htry as (cap & path & capf & ->).
  unfold texts_of. cbn [fst]. by rewrite text_chunks_snoc_image, app_nil_r.
Qed.

Lemma pptx_slide_step_texts (isalnum : char -> bool)
    (root assets_dir filename : str) (st : LoopState) (s : Z * Slide)
    (d : Disk) :
  texts_of <$> (pptx_slide_step isalnum root assets_dir filename st s d).2
  = (fun t => texts_of st ++ t) <$> pptx_slide_texts filename s.
Proof.
  destruct st as [results n], s as [sidx slide].
  unfold pptx_slide_step, pptx_slide_texts, io_bind. cbn [fst snd].
  destruct (pptx_slide_text_pure slide) as [r Hr]. rewrite !Hr. cbn [snd].
  destruct r as [slide_text|]; [|done].
  rewrite (io_for_texts _ (fun _ => Some []))
    by (intros; apply pptx_shape_step_texts).
  rewrite gather_nothing. cbn [fmap option_fmap option_map].
  unfold texts_of. cbn [fst].
  by rewrite text_chunks_app, text_chunks_texts, app_nil_r.
Qed.

(** Whether a loader returns, and the text chunks it returns, do not depend
    on the disk: no failure to save an image changes them. *)
Lemma run_loader_texts (isalnum : char -> bool) (w : World) (k : Loader)
    (filepath root : str) :
  exists r, forall d,
    text_chunks <$> (run_loader isalnum w k filepath root d).2 = r.
Proof.
  destruct k; cbn [run_loader].
  - unfold _load_pdf_with_images, io_bind, io_of_option.
    destruct (fitz_open w filepath) as [doc|]; [|by exists None].
    destruct (makedirs_ok w (assets_dir_of isalnum filepath root)) eqn:Hmk.
    + eexists. intros d. rewrite assets_dir_run, Hmk.
      pose proof (io_for_texts
        (pdf_page_step isalnum w doc root
           (assets_dir_of isalnum filepath root) (basename filepath))
        (pdf_page_texts (basename filepath)) (enumerate 0 (doc_pages doc))
        ltac:(intros; apply pdf_page_step_texts) ([], 1) d) as Hfor.
      destruct (io_for _ _ _ d) as [d' [st|]]; exact Hfor.
    + exists None. intros d. by rewrite assets_dir_run, Hmk.
  - unfold _load_docx_with_images, io_bind, io_of_option.
    destruct (docx_Document w filepath) as [doc|]; [|by exists None].
    destruct (makedirs_ok w (assets_dir_of isalnum filepath root)) eqn:Hmk.
    + eexists. intros d. rewrite assets_dir_run, Hmk.
      match goal with
      | |- context [io_for ?body ?l ?s d] =>
          pose proof (io_for_texts body (fun _ => Some []) l
            ltac:(intros; apply docx_part_step_texts) s d) as Hfor
      end.
      destruct (io_for _ _ _ d) as [d' [st|]]; exact Hfor.
    + exists None. intros d. by rewrite assets_dir_run, Hmk.
  - unfold _load_pptx_with_images, io_bind, io_of_option.
    destruct (pptx_Presentation w filepath) as [prs|]; [|by exists None].
    destruct (makedirs_ok w (assets_dir_of isalnum filepath root)) eqn:Hmk.
    + eexists. intros d. rewrite assets_dir_run, Hmk.
      pose proof (io_for_texts
        (pptx_slide_step isalnum root
           (assets_dir_of isalnum filepath root) (basename filepath))
        (pptx_slide_texts (basename filepath)) (enumerate 1 prs)
        ltac:(intros; apply pptx_slide_step_texts) ([], 1) d) as Hfor.
      destruct (io_for _ _ _ d) as [d' [st|]]; exact Hfor.
    + exists None. intros d. by rewrite assets_dir_run, Hmk.
  - eexists. intros d. rewrite load_plain_run. cbn [snd]. reflexivity.
Qed.

(** ** The images of a document, one attempt each *)

Lemma save_attempt_saved (a : Attempt) (n : Z) (d d' : Disk) :
  save_attempt a n d = (d', Some tt) ->
  exists data,
    att_data a = Some data
    /\ files d' !! att_path a n = Some data
    /\ written d' = written d ++ [att_path a n].
Proof.
  unfold save_attempt, io_bind, io_of_option, open_wb, f_write.
  pose proof (next_fault_spec d) as [_ Hw].
  destruct (next_fault d) as [[] d1]; [done|]. cbn [snd] in Hw.
  destruct (att_data a) as [data|]; [|done].
  match goal with
  | |- context [next_fault ?e] =>
      pose proof (next_fault_spec e) as [_ Hw2];
      destruct (next_fault e) as [[] d2]; [done|]
  end.
  cbn [snd written] in Hw2. intros [= <-]. exists data. cbn [files written].
  split; [done|]. split; [apply lookup_insert_eq|]. by rewrite Hw2, Hw.
Qed.

Lemma save_all_app (l1 l2 : list (option Attempt)) (n : Z) (d : Disk) :
  save_all (l1 ++ l2) n d
  = let '(d1, cs1) := save_all l1 n d in
    let '(d2, cs2) := save_all l2 (n + len cs1) d1 in
    (d2, cs1 ++ cs2).
Proof.
  revert n d. induction l1 as [|[a|] l1 IH]; intros n d; cbn [app save_all].
  - rewrite Z.add_0_r. by destruct (save_all l2 n d).
  - destruct (save_attempt a n d) as [d1 [[]|]].
    + rewrite IH. destruct (save_all l1 (n + 1) d1) as [d2 cs1].
      unfold len. cbn [length].
      replace (n + Z.of_nat (S (length cs1)))
        with (n + 1 + Z.of_nat (length cs1)) by lia.
      by destruct (save_all l2 _ d2).
    + apply IH.
  - apply IH.
Qed.

(** The chunks of [save_all] are chunks of its attempts. *)
Lemma save_all_chunks (P : chunk -> Prop) (atts : list (option Attempt)) :
  Forall (fun o => forall a n, o = Some a -> P (att_chunk a n)) atts ->
  forall n d, Forall P (save_all atts n d).2.
Proof.
  induction 1 as [|[a|] atts Ha _ IH]; intros n d; cbn [save_all];
    [by constructor| |apply IH].
  destruct (save_attempt a n d) as [d1 [[]|]]; [|apply IH].
  specialize (IH (n + 1) d1). destruct (save_all atts (n + 1) d1).
  constructor; [by apply Ha | done].
Qed.

(** On a disk without faults every attempt that has bytes to write saves
    them: the chunks are those of these attempts, numbered in a row. *)
Lemma save_attempt_no_faults (a : Attempt) (n : Z) (d : Disk) :
  faults d = [] ->
  faults (save_attempt a n d).1 = []
  /\ ((save_attempt a n d).2 = Some tt <-> is_Some (att_data a)).
Proof.
  destruct d as [fs ws fl]. cbn [faults]. intros ->.
  unfold save_attempt, io_bind, io_of_option, open_wb, f_write, next_fault.
  cbn [faults].
  destruct (att_data a) as [data|]; cbn [fst snd faults].
  - split; [done|]. split; [by eexists | done].
  - split; [done|]. split; [done | by intros [? ?]].
Qed.

Lemma save_all_no_faults (atts : list (option Attempt)) (n : Z) (d : Disk) :
  faults d = [] ->
  (save_all atts n d).2 = number_from n (extractable atts)
  /\ faults (save_all atts n d).1 = [].
Proof.
  revert n d. induction atts as [|[a|] atts IH]; intros n d Hd;
    [done| |by apply IH].
  unfold extractable. cbn [save_all omap list_omap mbind option_bind].
  destruct (save_attempt_no_faults a n d Hd) as [Hf Hok].
  destruct (save_attempt a n d) as [d1 [[]|]]; cbn [fst snd] in *.
  - destruct (proj1 Hok eq_refl) as [data Hdata]. rewrite Hdata.
    cbn [mbind option_bind number_from].
    destruct (IH (n + 1) d1 Hf) as [Hcs Hf2].
    destruct (save_all atts (n + 1) d1) as [d2 cs]. cbn [fst snd] in *.
    by rewrite Hcs.
  - destruct (att_data a) as [data|] eqn:Hdata.
    + assert (@None unit = Some tt) by (apply Hok; by eexists). done.
    + cbn [mbind option_bind]. by apply IH.
Qed.

Lemma io_for_attempt_steps {A} (body : LoopState -> A -> IO LoopState)
    (att : A -> option Attempt) (l : list A) :
  (forall st x d, body st x d = attempt_step (att x) st d) ->
  forall st d,
    io_for body l st d
    = let '(d', cs) := save_all (map att l) st.2 d in
      (d', Some (st.1 ++ cs, st.2 + len cs)).
Proof.
  intros Hbody. induction l as [|x l IH]; intros [results n] d.
  { cbn. unfold io_ret. by rewrite app_nil_r, Z.add_0_r. }
  cbn [io_for map]. unfold io_bind. rewrite Hbody. unfold attempt_step.
  change (att x :: map att l) with ([att x] ++ map att l).
  rewrite save_all_app. cbn [fst snd].
  destruct (save_all [att x] n d) as [d1 cs1]. rewrite IH. cbn [fst snd].
  destruct (save_all (map att l) (n + len cs1) d1) as [d2 cs2].
  unfold len. rewrite length_app, <- app_assoc. do 3 f_equal. lia.
Qed.

(** A loop whose rounds try the images of their items, besides adding
    chunks that are not image chunks. *)
Lemma io_for_attempts {A} (body : LoopState -> A -> IO LoopState)
    (att : A -> list (option Attempt)) (l : list A) :
  (forall st x d d' st',
     body st x d = (d', Some st') ->
     exists cs,
       save_all (att x) st.2 d = (d', cs)
       /\ image_chunks st'.1 = image_chunks st.1 ++ cs
       /\ st'.2 = st.2 + len cs) ->
  forall st d d' st',
    io_for body l st d = (d', Some st') ->
    exists cs,
      save_all (concat (map att l)) st.2 d = (d', cs)
      /\ image_chunks st'.1 = image_chunks st.1 ++ cs
      /\ st'.2 = st.2 + len cs.
Proof.
  intros Hbody. induction l as [|x l IH]; intros st d d' st'.
  { cbn. intros [= <- <-]. exists []. by rewrite app_nil_r, Z.add_0_r. }
  cbn [io_for map concat]. unfold io_bind.
  destruct (body st x d) as [d1 [st1|]] eqn:Hx; [|done]. intros Hrest.
  destruct (Hbody _ _ _ _ _ Hx) as (cs1 & Hs1 & Hi1 & Hn1).
  destruct (IH _ _ _ _ Hrest) as (cs2 & Hs2 & Hi2 & Hn2).
  exists (cs1 ++ cs2). rewrite save_all_app, Hs1, <- Hn1, Hs2.
  split; [done|]. rewrite Hi2, Hi1, Hn2, Hn1, <- app_assoc.
  split; [done|]. unfold len. rewrite length_app. lia.
Qed.

Ltac attempt_simpl :=
  repeat (cbn [fst snd save_all mbind option_bind att_path att_data att_chunk];
          unfold save_attempt, io_try, io_bind, io_of_option, io_ret);
  cbn [fst snd save_all mbind option_bind att_path att_data att_chunk].

Ltac attempt_cases :=
  attempt_simpl;
  repeat match goal with
    | |- context [open_wb ?p ?d] =>
        destruct (open_wb p d) as [? [[]|]]; attempt_simpl
    | |- context [f_write ?p ?b ?d] =>
        destruct (f_write p b d) as [? [[]|]]; attempt_simpl
    end;
  unfold len; cbn [length Z.of_nat Pos.of_succ_nat];
  rewrite ?app_nil_r, ?Z.add_0_r; reflexivity.

Lemma pdf_image_step_attempt (isalnum : char -> bool) (w : World)
    (doc : PdfDoc) (root assets_dir filename cap : str) (pidx : Z)
    (st : LoopState) (img : Z * Z) (d : Disk) :
  pdf_image_step isalnum w doc root assets_dir filename cap pidx st img d
  = attempt_step
      (pdf_attempt isalnum w doc root assets_dir filename cap pidx img) st d.
Proof.
  destruct st as [results n], img as [idx xref].
  unfold pdf_image_step, pdf_try_image, pix_save, attempt_step, pdf_attempt.
  attempt_simpl.
  destruct (doc_pixmap doc xref) as [pix|]; [|attempt_cases]. attempt_simpl.
  destruct (pix_n pix >? 4);
    [destruct (fitz_csRGB w pix) as [pix'|]; [|attempt_cases]|];
    attempt_simpl; (destruct (pix_png _) as [data|]; attempt_cases).
Qed.

Lemma docx_part_step_attempt (isalnum : char -> bool)
    (root assets_dir filename cap : str) (st : LoopState) (ip : Z * DocxPart)
    (d : Disk) :
  docx_part_step isalnum root assets_dir filename cap st ip d
  = attempt_step (docx_attempt isalnum root assets_dir filename cap ip) st d.
Proof.
  destruct st as [results n], ip as [i part].
  unfold docx_part_step, docx_try_part, attempt_step, docx_attempt.
  attempt_simpl. destruct (part_blob part) as [blob|]; attempt_cases.
Qed.

Lemma pptx_shape_step_attempt (isalnum : char -> bool)
    (root assets_dir filename caption_ctx : str) (sidx : Z) (st : LoopState)
    (shape : Shape) (d : Disk) :
  pptx_shape_step isalnum root assets_dir filename caption_ctx sidx st shape d
  = attempt_step
      (pptx_attempt isalnum root assets_dir filename caption_ctx sidx shape)
      st d.
Proof.
  destruct st as [results n].
  unfold pptx_shape_step, pptx_try_shape, attempt_step, pptx_attempt.
  attempt_simpl.
  destruct (shape_type shape) as [ty|]; [|attempt_cases]. attempt_simpl.
  destruct (bool_decide (ty = Some PICTURE)); [|attempt_cases]. attempt_simpl.
  destruct (shape_image shape) as [img|]; [|attempt_cases]. attempt_simpl.
  destruct (image_filename img) as [fname|]; [|attempt_cases]. attempt_simpl.
  destruct (image_blob img) as [blob|]; attempt_cases.
Qed.

Lemma pdf_attempts_images (isalnum : char -> bool) (w : World) (doc : PdfDoc)
    (root assets_dir filename cap : str) (pidx : Z) (l : list (Z * Z)) :
  image_attempts_only
    (map (pdf_attempt isalnum w doc root assets_dir filename cap pidx) l).
Proof.
  apply Forall_forall. intros o (img & -> & _)%list_elem_of_fmap a n.
  unfold pdf_attempt. intros Ha.
  destruct (doc_pixmap doc img.2) as [pix|]; [|done]. cbn in Ha.
  destruct (if pix_n pix >? 4 then fitz_csRGB w pix else Some pix)
    as [pix'|]; [|done]. cbn in Ha.
  destruct (pix_png pix') as [data|]; [|done]. cbn in Ha.
  injection Ha as <-. apply image_chunk_type.
Qed.

Lemma docx_attempts_images (isalnum : char -> bool)
    (root assets_dir filename cap : str) (l : list (Z * DocxPart)) :
  image_attempts_only
    (map (docx_attempt isalnum root assets_dir filename cap) l).
Proof.
  apply Forall_forall. intros o (ip & -> & _)%list_elem_of_fmap a n [= <-].
  apply image_chunk_type.
Qed.

Lemma pptx_attempts_images (isalnum : char -> bool)
    (root assets_dir filename cap : str) (sidx : Z) (l : list Shape) :
  image_attempts_only
    (map (pptx_attempt isalnum root assets_dir filename cap sidx) l).
Proof.
  apply Forall_forall. intros o (shape & -> & _)%list_elem_of_fmap a n.
  unfold pptx_attempt. intros Ha.
  destruct (shape_type shape) as [ty|]; [|done]. cbn in Ha.
  destruct (bool_decide (ty = Some PICTURE)); [|done].
  destruct (shape_image shape) as [img|]; [|done]. cbn in Ha.
  destruct (image_filename img) as [fname|]; [|done]. cbn in Ha.
  injection Ha as <-. apply image_chunk_type.
Qed.

(** A loop of attempts that starts after text chunks were added. *)
Lemma attempts_after_texts {A} (body : LoopState -> A -> IO LoopState)
    (att : A -> option Attempt) (l : list A) (results : list chunk)
    (filename : str) (page : option Z) (texts : list str) (n : Z)
    (d d' : Disk) (st' : LoopState) :
  (forall st x e, body st x e = attempt_step (att x) st e) ->
  image_attempts_only (map att l) ->
  io_for body l
    (results ++ map (fun c => _text_meta_chunk c filename page) texts, n) d
  = (d', Some st') ->
  exists cs,
    save_all (map att l) n d = (d', cs)
    /\ image_chunks st'.1 = image_chunks results ++ cs
    /\ st'.2 = n + len cs.
Proof.
  intros Hbody Himg. rewrite (io_for_attempt_steps body att l Hbody).
  cbn [fst snd]. pose proof (save_all_chunks _ _ Himg n d) as Hcs.
  destruct (save_all (map att l) n d) as [d1 cs]. cbn [snd] in Hcs.
  intros [= <- <-]. exists cs. split; [done|]. split; [|done]. cbn [fst].
  rewrite !image_chunks_app, image_chunks_texts, app_nil_r.
  by rewrite (image_chunks_all cs).
Qed.

Lemma pdf_page_step_attempts (isalnum : char -> bool) (w : World)
    (doc : PdfDoc) (root assets_dir filename : str) (st : LoopState)
    (p : Z * PdfPage) (d d' : Disk) (st' : LoopState) :
  pdf_page_step isalnum w doc root assets_dir filename st p d = (d', Some st')
  -> exists cs,
       save_all (pdf_page_attempts isalnum w doc root assets_dir filename p)
         st.2 d = (d', cs)
       /\ image_chunks st'.1 = image_chunks st.1 ++ cs
       /\ st'.2 = st.2 + len cs.
Proof.
  destruct st as [results n], p as [pidx page].
  unfold pdf_page_step, pdf_page_attempts. cbn [fst snd].
  destruct (page_images page) as [|img imgs] eqn:Himgs; cbn [is_empty].
  - intros [= <- <-]. exists []. cbn [fst snd enumerate map save_all].
    split; [done|].
    by rewrite image_chunks_app, image_chunks_texts, !app_nil_r, Z.add_0_r.
  - apply attempts_after_texts.
    + intros. apply pdf_image_step_attempt.
    + apply pdf_attempts_images.
Qed.

Lemma pptx_slide_step_attempts (isalnum : char -> bool)
    (root assets_dir filename : str) (st : LoopState) (s : Z * Slide)
    (d d' : Disk) (st' : LoopState) :
  pptx_slide_step isalnum root assets_dir filename st s d = (d', Some st')
  -> exists cs,
       save_all (pptx_slide_attempts isalnum root assets_dir filename s)
         st.2 d = (d', cs)
       /\ image_chunks st'.1 = image_chunks st.1 ++ cs
       /\ st'.2 = st.2 + len cs.
Proof.
  destruct st as [results n], s as [sidx slide].
  unfold pptx_slide_step, pptx_slide_attempts, pptx_caption_ctx, io_bind.
  cbn [fst snd].
  destruct (pptx_slide_text_pure slide) as [r Hr]. rewrite !Hr. cbn [snd].
  destruct r as [slide_text|]; [|done]. cbn [default].
  apply attempts_after_texts.
  - intros. apply pptx_shape_step_attempt.
  - apply pptx_attempts_images.
Qed.

Lemma run_loader_attempts (isalnum : char -> bool) (w : World) (k : Loader)
    (filepath root : str) (d d' : Disk) (chunks : list chunk) :
  run_loader isalnum w k filepath root d = (d', Some chunks) ->
  save_all (image_attempts isalnum w k filepath root) 1 d
  = (d', image_chunks chunks).
Proof.
  destruct k; cbn [run_loader image_attempts].
  - unfold _load_pdf_with_images, io_bind, io_of_option.
    destruct (fitz_open w filepath) as [doc|]; [|done].
    rewrite assets_dir_run.
    destruct (makedirs_ok w (assets_dir_of isalnum filepath root)); [|done].
    destruct (io_for _ _ _ d) as [d1 [st|]] eqn:Hfor; [|done].
    intros [= <- <-].
    apply (io_for_attempts _
             (pdf_page_attempts isalnum w doc root
                (assets_dir_of isalnum filepath root) (basename filepath)))
      in Hfor as (cs & Hs & Hi & _);
      [|intros; by apply pdf_page_step_attempts].
    cbn [fst snd] in *. by rewrite Hs, Hi.
  - unfold _load_docx_with_images, io_bind, io_of_option.
    destruct (docx_Document w filepath) as [doc|]; [|done].
    rewrite assets_dir_run.
    destruct (makedirs_ok w (assets_dir_of isalnum filepath root)); [|done].
    destruct (io_for _ _ _ d) as [d1 [st|]] eqn:Hfor; [|done].
    intros [= <- <-].
    rewrite <- (app_nil_l (map _ (_chunk_text _ _ _))) in Hfor.
    apply (attempts_after_texts _
             (docx_attempt isalnum root (assets_dir_of isalnum filepath root)
                (basename filepath) (docx_context_snippet doc)))
      in Hfor as (cs & Hs & Hi & _);
      [| intros; apply docx_part_step_attempt | apply docx_attempts_images].
    cbn [fst snd] in *. by rewrite Hs, Hi.
  - unfold _load_pptx_with_images, io_bind, io_of_option.
    destruct (pptx_Presentation w filepath) as [prs|]; [|done].
    rewrite assets_dir_run.
    destruct (makedirs_ok w (assets_dir_of isalnum filepath root)); [|done].
    destruct (io_for _ _ _ d) as [d1 [st|]] eqn:Hfor; [|done].
    intros [= <- <-].
    apply (io_for_attempts _
             (pptx_slide_attempts isalnum root
                (assets_dir_of isalnum filepath root) (basename filepath)))
      in Hfor as (cs & Hs & Hi & _);
      [|intros; by apply pptx_slide_step_attempts].
    cbn [fst snd] in *. by rewrite Hs, Hi.
  - rewrite load_plain_run. intros [= <- <-]. cbn [save_all].
    by rewrite image_chunks_texts.
Qed.

(** C6, as stated, fails: the chunks emitted after an image that could not
    be saved are not unaffected.  The image of the second page of the
    example PDF is saved at [Report_assets/Report_p2_1.png] on every disk.
    When the image before it is saved too, its chunk is figure 2 and reads
    [[Figure 2] Appendix]; when the first file operation raises, so that
    the image before it is skipped, its chunk is figure 1 and reads
    [[Figure 1] Appendix]. *)
Lemma later_image_chunk_renumbered :
  let run_a := demo_run PdfLoader (lit "docs/Report.PDF") empty_disk in
  let run_b := demo_run PdfLoader (lit "docs/Report.PDF") faulty_disk in
  let path := lit "Report_assets/Report_p2_1.png" in
  is_Some run_a.2 /\ is_Some run_b.2
  /\ chunk_of_image run_a path = [(lit "[Figure 2] Appendix", Some 2)]
  /\ chunk_of_image run_b path = [(lit "[Figure 1] Appendix", Some 1)]
  /\ files run_a.1 !! (lit "uploads/" ++ path) = Some [x01]
  /\ files run_b.1 !! (lit "uploads/" ++ path) = Some [x01]
  /\ chunk_of_image run_a path <> chunk_of_image run_b path.
Proof. intros run_a run_b path. repeat split; by_evaluation. Qed.

(** C6 (as amended).  Whatever the loader, the image chunks of a call that
    returns stand one for one, and in order, for the files written in full
    during the call: each carries the path of its file, which is on the disk
    when the call returns.  Failures leave the text chunks alone: on any
    other disk, with other failures, the call returns as well, with the same
    text chunks.  And every image is tried on its own: the image chunks and
    the disk the call leaves are those of taking the images of the document
    one by one in the order of the loops, where an image that cannot be
    extracted, or whose file cannot be created or written, gives no chunk
    and the next image is tried all the same; an image whose bytes are
    written gives its chunk, with its own path, page and caption.  Only the
    figure number of a chunk (and, for PPTX, the file name made from it)
    depends on the images before it: it counts those that were saved. *)
Theorem image_chunk_only_after_write (isalnum : char -> bool) (w : World)
    (k : Loader) (filepath root : str) (d d' : Disk) (chunks : list chunk) :
  run_loader isalnum w k filepath root d = (d', Some chunks) ->
  (exists ws : list str,
     written d' = written d ++ ws
     /\ omap image_path_of (image_chunks chunks)
        = map (fun p => rel_path_of p root) ws
     /\ length (image_chunks chunks) = length ws
     /\ (forall p, p ∈ ws -> is_Some (files d' !! p)))
  /\ (forall e : Disk,
        exists chunks',
          (run_loader isalnum w k filepath root e).2 = Some chunks'
          /\ text_chunks chunks' = text_chunks chunks)
  /\ save_all (image_attempts isalnum w k filepath root) 1 d
     = (d', image_chunks chunks).
Proof.
  intros Hrun. split; [|split].
  - pose proof (io_post_run _ _ _ _ _ _ (run_loader_post _ _ _ _ _ _) Hrun)
      as (ws & n & (Hw & _ & Hfiles) & (_ & _ & Hpath & Hlen) & _).
    by exists ws.
  - intros e. destruct (run_loader_texts isalnum w k filepath root) as [r Hr].
    pose proof (Hr d) as Hd. pose proof (Hr e) as He.
    rewrite Hrun in Hd. cbn in Hd. subst r.
    destruct (run_loader isalnum w k filepath root e).2 as [chunks'|];
      [|done].
    injection He as He. by exists chunks'.
  - by apply run_loader_attempts.
Qed.

Lemma image_chunk_only_after_write_witness :
  let d' := demo_disk_after PdfLoader (lit "docs/Report.PDF") faulty_disk in
  let chunks := demo_chunks PdfLoader (lit "docs/Report.PDF") faulty_disk in
  demo_run PdfLoader (lit "docs/Report.PDF") faulty_disk = (d', Some chunks)
  /\ (exists ws : list str,
        written d' = written faulty_disk ++ ws
        /\ omap image_path_of (image_chunks chunks)
           = map (fun p => rel_path_of p (lit "uploads")) ws
        /\ length (image_chunks chunks) = length ws
        /\ (forall p, p ∈ ws -> is_Some (files d' !! p)))
  /\ (forall e : Disk,
        exists chunks',
          (demo_run PdfLoader (lit "docs/Report.PDF") e).2 = Some chunks'
          /\ text_chunks chunks' = text_chunks chunks)
  /\ save_all
       (image_attempts ascii_isalnum demo_world PdfLoader
          (lit "docs/Report.PDF") (lit "uploads")) 1 faulty_disk
     = (d', image_chunks chunks).
Proof.
  split; [by_evaluation|].
  apply (image_chunk_only_after_write ascii_isalnum demo_world PdfLoader
           (lit "docs/Report.PDF") (lit "uploads") faulty_disk).
  by_evaluation.
Defined.

(** ** Captions of the PPTX loader *)

Lemma split_from_lstrip (s : str) : split_from [] (lstrip s) = split_from [] s.
Proof.
  induction s as [|c s IH]; [done|]. cbn [lstrip split_from].
  destruct (isspace c) eqn:Hc; [done|]. cbn [split_from]. by rewrite Hc.
Qed.

Lemma split_from_cons (w : str) (c : char) (s : str) :
  split_from w (c :: s)
  = if isspace c then
      match w with
      | [] => split_from [] s
      | _ => w :: split_from [] s
      end
    else split_from (w ++ [c]) s.
Proof. reflexivity. Qed.

Lemma split_from_rstrip (s : str) :
  forall w, split_from w (rstrip s) = split_from w s.
Proof.
  induction s as [|c s IH]; intros w; [done|]. rewrite rstrip_cons.
  destruct (rstrip s) as [|y ys] eqn:Hr.
  - rewrite (split_from_cons w c s). destruct (isspace c) eqn:Hc.
    + rewrite <- (IH []). by destruct w.
    + rewrite <- IH. cbn [split_from]. by rewrite Hc.
  - rewrite (split_from_cons w c s), (split_from_cons w c (y :: ys)).
    by rewrite !IH.
Qed.

Lemma norm_ws_strip (s : str) : _norm_ws (strip s) = _norm_ws s.
Proof.
  unfold _norm_ws, split, strip.
  by rewrite split_from_rstrip, split_from_lstrip.
Qed.

Lemma str_or_caption (c : str) : str_or (default [] (Some c)) (str_or c []) = c.
Proof. by destruct c. Qed.

Lemma pptx_alt_missing (shape : Shape) :
  shape_alternative_text shape = AttrMissing -> pptx_alt shape = [].
Proof. unfold pptx_alt. by intros ->. Qed.

(** C7: the code at a deck whose first picture has an alternative text.
    The deck is as python-pptx presents it: the alternative text
    [Bar chart of revenue] of the first picture of the second slide is in
    the XML of the shape, and the shape objects have no attribute
    [alternative_text].  The loader returns one chunk for each picture, and
    the caption of both is the normalised text of the slide,
    [Revenue by region]: the picture that has an alternative text is not
    captioned with it. *)
Theorem pptx_caption_ignores_alt_text :
  let run := demo_run PptxLoader (lit "docs/deck.pptx") empty_disk in
  let chunks := default [] run.2 in
  is_Some run.2
  /\ demo_pptx !! 1%nat = Some [text_shape (lit " Revenue   by region ");
                                demo_picture_alt; demo_picture_noalt]
  /\ shape_descr demo_picture_alt = Some (lit "Bar chart of revenue")
  /\ shape_alternative_text demo_picture_alt = AttrMissing
  /\ library_deck demo_pptx
  /\ map (fun c : chunk => (c.1, figure_no_of c, c.2 !! "page", caption_of c))
       (image_chunks chunks)
     = [ (lit "[Figure 1] Revenue by region", Some 1, Some (VInt 2),
          Some (lit "Revenue by region"));
         (lit "[Figure 2] Revenue by region", Some 2, Some (VInt 2),
          Some (lit "Revenue by region")) ]
  /\ Some (lit "Bar chart of revenue")
     ∉ map caption_of (image_chunks chunks).
Proof.
  intros run chunks.
  split; [by_evaluation|]. do 3 (split; [reflexivity|]).
  split; [by repeat constructor|].
  split; by_evaluation.
Qed.

(** Every image chunk the PPTX loader returns for a deck as python-pptx
    presents it carries the number of a slide of the deck as its page, and
    its caption is the normalised text of that slide cut to 300 characters,
    whatever the alternative texts of the pictures of the deck. *)
Theorem pptx_caption_is_slide_text (isalnum : char -> bool) (w : World)
    (filepath root : str) (prs : PptxDoc) (d d' : Disk)
    (chunks : list chunk) :
  pptx_Presentation w filepath = Some prs ->
  library_deck prs ->
  _load_pptx_with_images isalnum w filepath root d = (d', Some chunks) ->
  Forall (fun c : chunk =>
            exists (sidx : Z) (slide : Slide) (slide_text : str),
              c.2 !! "page" = Some (VInt sidx)
              /\ (sidx, slide) ∈ enumerate 1 prs
              /\ (forall e, pptx_slide_text slide e = (e, Some slide_text))
              /\ caption_of c = Some (py_prefix 300 (_norm_ws slide_text)))
    (image_chunks chunks).
Proof.
  intros Hprs Hlib Hrun.
  pose proof (io_post_run _ _ _ _ _ _ (pptx_load_post _ _ _ _ _) Hrun)
    as (prs' & ws & n & Hprs' & _ & _ & HF).
  rewrite Hprs in Hprs'. injection Hprs' as <-.
  apply Forall_forall. intros c [Himg Hc]%list_elem_of_filter.
  cbn [fst] in HF. rewrite Forall_forall in HF.
  destruct (HF c Hc) as [(s & p & _ & ->)|Hform]; [done|].
  destruct Hform as (sidx & slide & shape & img & fname & slide_text & m
                     & Hslide & Hshape & Hty & _ & _ & Htext & ->).
  exists sidx, slide, slide_text. split; [apply image_chunk_page|].
  do 2 (split; [done|]).
  rewrite image_chunk_caption, str_or_caption.
  rewrite pptx_alt_missing; [done|].
  unfold library_deck in Hlib. rewrite Forall_forall in Hlib.
  apply enumerate_elem in Hslide.
  assert (slide ∈ prs) as Hin by apply Hslide.
  specialize (Hlib slide Hin). rewrite Forall_forall in Hlib. by apply Hlib.
Qed.

Lemma pptx_caption_is_slide_text_witness :
  let d' := demo_disk_after PptxLoader (lit "docs/deck.pptx") empty_disk in
  let chunks := demo_chunks PptxLoader (lit "docs/deck.pptx") empty_disk in
  (pptx_Presentation demo_world (lit "docs/deck.pptx") = Some demo_pptx
   /\ library_deck demo_pptx
   /\ _load_pptx_with_images ascii_isalnum demo_world (lit "docs/deck.pptx")
        (lit "uploads") empty_disk = (d', Some chunks))
  /\ Forall (fun c : chunk =>
               exists (sidx : Z) (slide : Slide) (slide_text : str),
                 c.2 !! "page" = Some (VInt sidx)
                 /\ (sidx, slide) ∈ enumerate 1 demo_pptx
                 /\ (forall e, pptx_slide_text slide e = (e, Some slide_text))
                 /\ caption_of c = Some (py_prefix 300 (_norm_ws slide_text)))
       (image_chunks chunks).
Proof.
  assert (library_deck demo_pptx) as Hlib by by repeat constructor.
  split; [split; [reflexivity|split; [exact Hlib|by_evaluation]]|].
  apply (pptx_caption_is_slide_text ascii_isalnum demo_world
           (lit "docs/deck.pptx") (lit "uploads") demo_pptx empty_disk
           (demo_disk_after PptxLoader (lit "docs/deck.pptx") empty_disk));
    [reflexivity | exact Hlib | by_evaluation].
Defined.

(** ** Page attribution *)

Lemma chunk_form_page (filename : str) (page : option Z) (c : chunk) :
  chunk_form filename page c -> c.2 !! "page" = Some (of_page page).
Proof.
  intros [(s & ->)|(cap & path & n & capf & ->)].
  - apply text_chunk_page.
  - apply image_chunk_page.
Qed.

Lemma paged_form_page (filename : str) (n : Z) (c : chunk) :
  paged_form filename n c ->
  exists p, c.2 !! "page" = Some (VInt p) /\ 1 <= p <= n.
Proof.
  intros (p & Hp & Hc). exists p. split; [|done].
  by apply chunk_form_page in Hc.
Qed.

(** C8, as stated, fails: the chunk the plain loader returns for the
    example file [readme.md] has the key [page] in its metadata, with the
    value [None]; so has every chunk of the DOCX example. *)
Lemma page_key_present :
  let chunks := demo_chunks PlainLoader (lit "readme.md") empty_disk in
  let chunks' := demo_chunks DocxLoader (lit "docs/memo.docx") empty_disk in
  (demo_run PlainLoader (lit "readme.md") empty_disk).2 = Some chunks
  /\ (demo_run DocxLoader (lit "docs/memo.docx") empty_disk).2 = Some chunks'
  /\ map (fun c : chunk => c.2 !! "page") chunks = [Some VNone]
  /\ map (fun c : chunk => c.2 !! "page") chunks'
     = [Some VNone; Some VNone; Some VNone]
  /\ ~ Forall (fun c : chunk => c.2 !! "page" = None) chunks.
Proof.
  repeat split; try by vm_compute.
  intros Hall. vm_compute in Hall. by apply Forall_inv in Hall.
Qed.

(** C8 (as amended).  Every chunk of the DOCX loader and of the plain-text
    loader has the key [page] in its metadata with the value [None]: it
    names no page.  Every chunk of the PDF loader and of the PPTX loader
    has an integer there, the number of a page or of a slide, counted
    from 1. *)
Theorem page_attribution (isalnum : char -> bool) (w : World) (k : Loader)
    (filepath root : str) (d d' : Disk) (chunks : list chunk) :
  run_loader isalnum w k filepath root d = (d', Some chunks) ->
  match k with
  | DocxLoader | PlainLoader =>
      Forall (fun c : chunk => c.2 !! "page" = Some VNone) chunks
  | PdfLoader | PptxLoader =>
      Forall (fun c : chunk =>
                exists p : Z, c.2 !! "page" = Some (VInt p) /\ 1 <= p) chunks
  end.
Proof.
  destruct k; cbn [run_loader]; intros Hrun.
  - pose proof (io_post_run _ _ _ _ _ _ (pdf_load_post _ _ _ _ _) Hrun)
      as (doc & ws & n & _ & (_ & _ & HF) & _).
    eapply Forall_impl; [exact HF|]. intros c Hc.
    apply paged_form_page in Hc as (p & Hp & ?). exists p. split; [done | lia].
  - pose proof (io_post_run _ _ _ _ _ _ (docx_load_post _ _ _ _ _) Hrun)
      as (doc & ws & n & _ & (_ & _ & HF) & _).
    eapply Forall_impl; [exact HF|]. intros c Hc.
    by apply chunk_form_page in Hc.
  - pose proof (io_post_run _ _ _ _ _ _ (pptx_load_post _ _ _ _ _) Hrun)
      as (prs & ws & n & _ & (_ & _ & HF)).
    eapply Forall_impl; [exact HF|]. intros c Hc.
    apply pptx_form_paged, paged_form_page in Hc as (p & Hp & ?).
    exists p. split; [done | lia].
  - rewrite load_plain_run in Hrun. injection Hrun as _ <-.
    apply Forall_forall. intros c (s & -> & _)%list_elem_of_fmap.
    apply text_chunk_page.
Qed.

Lemma page_attribution_witness :
  demo_run DocxLoader (lit "docs/memo.docx") faulty_disk
  = (demo_disk_after DocxLoader (lit "docs/memo.docx") faulty_disk,
     Some (demo_chunks DocxLoader (lit "docs/memo.docx") faulty_disk))
  /\ Forall (fun c : chunk => c.2 !! "page" = Some VNone)
       (demo_chunks DocxLoader (lit "docs/memo.docx") faulty_disk).
Proof.
  split; [by_evaluation|].
  apply (page_attribution ascii_isalnum demo_world DocxLoader
           (lit "docs/memo.docx") (lit "uploads") faulty_disk
           (demo_disk_after DocxLoader (lit "docs/memo.docx") faulty_disk)).
  by_evaluation.
Defined.

(** ** The outcome of a loader depends on the disk through its faults *)

Lemma fault_det_ret {A} (a : A) : fault_det (io_ret a).
Proof. by intros d1 d2 Hf. Qed.

Lemma fault_det_raise {A} : fault_det (@io_raise A).
Proof. by intros d1 d2 Hf. Qed.

Lemma fault_det_of_option {A} (o : option A) : fault_det (io_of_option o).
Proof. by intros d1 d2 Hf. Qed.

Lemma fault_det_bind {A B} (m : IO A) (k : A -> IO B) :
  fault_det m -> (forall a, fault_det (k a)) -> fault_det (io_bind m k).
Proof.
  intros Hm Hk d1 d2 Hf. unfold io_bind.
  destruct (Hm d1 d2 Hf) as [Hr Hf'].
  destruct (m d1) as [e1 [a1|]], (m d2) as [e2 [a2|]]; cbn in *;
    simplify_eq; [by apply Hk | done].
Qed.

Lemma fault_det_try {A} (m : IO A) : fault_det m -> fault_det (io_try m).
Proof.
  intros Hm d1 d2 Hf. unfold io_try. destruct (Hm d1 d2 Hf) as [Hr Hf'].
  destruct (m d1) as [e1 r1], (m d2) as [e2 r2]; cbn in *. by subst.
Qed.

Lemma fault_det_for {A S} (body : S -> A -> IO S) (l : list A) :
  (forall s x, fault_det (body s x)) -> forall s, fault_det (io_for body l s).
Proof.
  intros Hbody. induction l as [|x l IH]; intros s; cbn [io_for].
  - apply fault_det_ret.
  - by apply fault_det_bind.
Qed.

Lemma next_fault_det (d1 d2 : Disk) :
  faults d1 = faults d2 ->
  (next_fault d1).1 = (next_fault d2).1
  /\ faults (next_fault d1).2 = faults (next_fault d2).2.
Proof.
  unfold next_fault. intros Hf. rewrite Hf.
  destruct (faults d2) as [|b rest] eqn:Hd2; cbn; [|done].
  split; [done | congruence].
Qed.

Lemma fault_det_open_wb (path : str) : fault_det (open_wb path).
Proof.
  intros d1 d2 Hf. unfold open_wb.
  destruct (next_fault_det d1 d2 Hf) as [Hb Hf'].
  destruct (next_fault d1) as [b1 e1], (next_fault d2) as [b2 e2].
  cbn in *. subst. by destruct b2.
Qed.

Lemma fault_det_f_write (path : str) (data : bytes) :
  fault_det (f_write path data).
Proof.
  intros d1 d2 Hf. unfold f_write.
  destruct (next_fault_det d1 d2 Hf) as [Hb Hf'].
  destruct (next_fault d1) as [b1 e1], (next_fault d2) as [b2 e2].
  cbn in *. subst. by destruct b2.
Qed.

(** The steps of a proof that a computation built from the operations
    above is [fault_det]. *)
Ltac fault_det_step :=
  first
    [ apply fault_det_ret | apply fault_det_raise | apply fault_det_of_option
    | apply fault_det_open_wb | apply fault_det_f_write
    | apply fault_det_try
    | apply fault_det_bind; [|intros ?]
    | apply fault_det_for; intros ? ?
    | match goal with
      | |- fault_det (match ?x with _ => _ end) => destruct x
      | |- fault_det (if ?b then _ else _) => destruct b
      end ].

Lemma run_loader_fault_det (isalnum : char -> bool) (w : World) (k : Loader)
    (filepath root : str) :
  fault_det (run_loader isalnum w k filepath root).
Proof.
  destruct k; cbn [run_loader].
  - unfold _load_pdf_with_images, _assets_dir, _ensure_dir, pdf_page_step,
      pdf_image_step, pdf_try_image, pix_save.
    repeat fault_det_step.
  - unfold _load_docx_with_images, _assets_dir, _ensure_dir, docx_part_step,
      docx_try_part.
    repeat fault_det_step.
  - unfold _load_pptx_with_images, _assets_dir, _ensure_dir, pptx_slide_step,
      pptx_slide_text, pptx_text_step, pptx_shape_step, pptx_try_shape.
    repeat fault_det_step.
  - unfold _load_plain. repeat fault_det_step.
Qed.

(** ** The paths of the images *)

(** C9, as stated, fails for PPTX.  The second picture of the second slide
    of the example deck (the one whose bytes are [02]) is saved as
    [deck_s2_2.png] when the picture before it is saved, and as
    [deck_s2_1.png] when the first file operation on the disk raises and
    that picture is skipped: the same deck, extracted twice, gives the
    picture two different paths. *)
Lemma pptx_image_path_shifts :
  let name1 := lit "deck_assets/deck_s2_1.png" in
  let name2 := lit "deck_assets/deck_s2_2.png" in
  let run_a := demo_run PptxLoader (lit "docs/deck.pptx") empty_disk in
  let run_b := demo_run PptxLoader (lit "docs/deck.pptx") faulty_disk in
  let paths (r : Disk * option (list chunk)) :=
    omap image_path_of (image_chunks (default [] r.2)) in
  is_Some run_a.2 /\ is_Some run_b.2
  /\ paths run_a = [lit "deck_assets/deck_s2_1.jpeg"; name2]
  /\ paths run_b = [name1]
  /\ files run_a.1 !! (lit "uploads/" ++ name2) = Some [x02]
  /\ files run_b.1 !! (lit "uploads/" ++ name1) = Some [x02]
  /\ name1 ∉ paths run_a.
Proof.
  intros name1 name2 run_a run_b paths.
  assert (paths run_a = [lit "deck_assets/deck_s2_1.jpeg"; name2]) as Ha
    by by_evaluation.
  do 2 (split; [by_evaluation|]). split; [exact Ha|].
  do 3 (split; [by_evaluation|]).
  rewrite Ha. intros [Heq|Hin]%elem_of_cons; [done|].
  by apply list_elem_of_singleton in Hin.
Qed.

Lemma image_paths_of_run (root : str) (chunks : list chunk) (n : Z)
    (ws : list str) :
  numbered root (chunks, n) ws ->
  omap image_path_of (image_chunks chunks)
  = map (fun p => rel_path_of p root) ws.
Proof. by intros (_ & _ & Hpath & _). Qed.

(** C9 (as amended).  The chunks a loader returns depend on the disk only
    through the file operations that fail: on any disk with the same
    failures to come, the same document gives the same chunks, so the same
    image paths.  For PDF the paths of the image chunks are, in order, among
    the names made from the base name of the document, the page number and
    the index of the image on its page; for DOCX among those made from the
    base name, the index of the image part and the extension of its content
    type: a failure removes a path and changes no other.  For PPTX the name
    of an image is made from the base name, the slide number, the figure
    number of the chunk and the extension of the image's own file name: it
    depends on how many images were saved before it. *)
Theorem image_paths_deterministic (isalnum : char -> bool) (w : World)
    (k : Loader) (filepath root : str) (d d' : Disk) (chunks : list chunk) :
  run_loader isalnum w k filepath root d = (d', Some chunks) ->
  (forall e : Disk, faults e = faults d ->
     (run_loader isalnum w k filepath root e).2 = Some chunks)
  /\ match k with
     | PdfLoader =>
         exists doc, fitz_open w filepath = Some doc
           /\ omap image_path_of (image_chunks chunks)
              `sublist_of`
              map (fun p => rel_path_of p root)
                (pdf_candidates isalnum filepath root doc)
     | DocxLoader =>
         exists doc, docx_Document w filepath = Some doc
           /\ omap image_path_of (image_chunks chunks)
              `sublist_of`
              map (fun p => rel_path_of p root)
                (docx_candidates isalnum filepath root doc)
     | PptxLoader =>
         forall c : chunk, c ∈ image_chunks chunks ->
           exists (sidx n : Z) (ext : str),
             c.2 !! "page" = Some (VInt sidx)
             /\ figure_no_of c = Some n
             /\ image_path_of c
                = Some (rel_path_of
                          (path_join (assets_dir_of isalnum filepath root)
                             (pptx_img_name isalnum (basename filepath) sidx
                                n ext)) root)
     | PlainLoader => image_chunks chunks = []
     end.
Proof.
  intros Hrun. split.
  { intros e He.
    destruct (run_loader_fault_det isalnum w k filepath root e d He)
      as [Hr _].
    by rewrite Hr, Hrun. }
  destruct k; cbn [run_loader] in Hrun.
  - pose proof (io_post_run _ _ _ _ _ _ (pdf_load_post _ _ _ _ _) Hrun)
      as (doc & ws & n & Hdoc & (_ & Hn & _) & Hsub).
    exists doc. split; [done|]. rewrite (image_paths_of_run _ _ _ _ Hn).
    by apply fmap_sublist.
  - pose proof (io_post_run _ _ _ _ _ _ (docx_load_post _ _ _ _ _) Hrun)
      as (doc & ws & n & Hdoc & (_ & Hn & _) & Hsub).
    exists doc. split; [done|]. rewrite (image_paths_of_run _ _ _ _ Hn).
    by apply fmap_sublist.
  - pose proof (io_post_run _ _ _ _ _ _ (pptx_load_post _ _ _ _ _) Hrun)
      as (prs & ws & n & _ & _ & _ & HF).
    intros c [Himg Hc]%list_elem_of_filter.
    cbn [fst] in HF. rewrite Forall_forall in HF.
    destruct (HF c Hc) as [(s & p & _ & ->)|Hform]; [done|].
    destruct Hform as (sidx & slide & shape & img & fname & slide_text & m
                       & _ & _ & _ & _ & _ & _ & ->).
    by exists sidx, m, (str_or (splitext fname).2 (lit ".png")).
  - rewrite load_plain_run in Hrun. injection Hrun as _ <-.
    apply image_chunks_texts.
Qed.

Lemma image_paths_deterministic_witness :
  let d' := demo_disk_after PdfLoader (lit "docs/Report.PDF") faulty_disk in
  let chunks := demo_chunks PdfLoader (lit "docs/Report.PDF") faulty_disk in
  demo_run PdfLoader (lit "docs/Report.PDF") faulty_disk = (d', Some chunks)
  /\ (forall e : Disk, faults e = faults faulty_disk ->
        (demo_run PdfLoader (lit "docs/Report.PDF") e).2 = Some chunks)
  /\ exists doc, fitz_open demo_world (lit "docs/Report.PDF") = Some doc
       /\ omap image_path_of (image_chunks chunks)
          `sublist_of`
          map (fun p => rel_path_of p (lit "uploads"))
            (pdf_candidates ascii_isalnum (lit "docs/Report.PDF")
               (lit "uploads") doc).
Proof.
  split; [by_evaluation|].
  apply (image_paths_deterministic ascii_isalnum demo_world PdfLoader
           (lit "docs/Report.PDF") (lit "uploads") faulty_disk
           (demo_disk_after PdfLoader (lit "docs/Report.PDF") faulty_disk)).
  by_evaluation.
Defined.

(** ** The dispatcher and the plain loader *)







(** * Further properties of the text helpers *)

(** ** [_slug] *)

(** [_slug] keeps the length of its argument, and every character of its
    result is alphanumeric or one of [-], [_] and [.]. *)
Theorem slug_safe (isalnum : char -> bool) (s : str) :
  length (_slug isalnum s) = length s
  /\ Forall (slug_keeps isalnum) (_slug isalnum s).
Proof.
  unfold _slug. split; [apply length_map|].
  apply Forall_forall. intros c (a & -> & _)%list_elem_of_fmap.
  unfold slug_keeps. destruct (isalnum a) eqn:Ha; cbn [orb]; [by left|].
  case_bool_decide as Hin; [by right|]. right.
  change (95%N ∈ [45; 95; 46]%N). set_solver.
Qed.

(** [_slug] changes no string of characters it keeps, and so slugging
    twice is slugging once. *)
Theorem slug_idempotent (isalnum : char -> bool) (s : str) :
  (Forall (slug_keeps isalnum) s -> _slug isalnum s = s)
  /\ _slug isalnum (_slug isalnum s) = _slug isalnum s.
Proof.
  assert (forall t, Forall (slug_keeps isalnum) t -> _slug isalnum t = t)
    as Hfix.
  { intros t Ht. induction Ht as [|c t Hc _ IH]; [done|].
    unfold _slug in *. cbn [map]. rewrite IH. f_equal.
    destruct Hc as [->|Hc]; [done|].
    rewrite (bool_decide_eq_true_2 _ Hc). by rewrite orb_true_r. }
  split; [apply Hfix|]. apply Hfix, slug_safe.
Qed.

Lemma slug_idempotent_witness :
  Forall (slug_keeps ascii_isalnum) (lit "Q3-report_v2.1")
  /\ _slug ascii_isalnum (lit "Q3-report_v2.1") = lit "Q3-report_v2.1".
Proof.
  assert (Forall (slug_keeps ascii_isalnum) (lit "Q3-report_v2.1")) as Hs.
  { pose (l := lit "Q3-report_v2.1"). vm_compute in l.
    change (Forall (slug_keeps ascii_isalnum) l). subst l.
    repeat constructor;
      first [by left | right; vm_compute; set_solver]. }
  split; [done|].
  by apply (slug_idempotent ascii_isalnum (lit "Q3-report_v2.1")).
Defined.

(** ** [_norm_ws] *)

Lemma split_from_free (w x rest : str) :
  Forall (fun c => isspace c = false) x ->
  split_from w (x ++ rest) = split_from (w ++ x) rest.
Proof.
  intros Hx. revert w. induction Hx as [|c x Hc _ IH]; intros w.
  - by rewrite app_nil_r.
  - cbn [app]. rewrite split_from_cons, Hc, IH. by rewrite <- app_assoc.
Qed.

Lemma split_join_words (words : list str) :
  Forall is_word words -> split (join (lit " ") words) = words.
Proof.
  unfold split. induction 1 as [|p ps [Hne Hfree] Hps IH]; [done|].
  destruct ps as [|q ps].
  - cbn [join]. rewrite <- (app_nil_r p) at 1.
    rewrite split_from_free by done. cbn [app split_from].
    destruct p; [by destruct Hne | done].
  - change (join (lit " ") (p :: q :: ps))
      with (p ++ 32%N :: join (lit " ") (q :: ps)).
    rewrite split_from_free by done. cbn [app].
    rewrite split_from_cons. change (isspace 32%N) with true.
    rewrite IH. destruct p; [by destruct Hne | done].
Qed.

Lemma split_from_is_word (s w : str) :
  Forall (fun c => isspace c = false) w ->
  Forall is_word (split_from w s).
Proof.
  revert w. induction s as [|c s IH]; intros w Hw.
  - destruct w as [|a w]; cbn [split_from]; [constructor|].
    constructor; [by split | constructor].
  - rewrite split_from_cons. destruct (isspace c) eqn:Hc.
    + destruct w as [|a w]; [by apply IH|].
      constructor; [by split | by apply IH].
    + apply IH. apply Forall_app. split; [done|]. by constructor.
Qed.

(** The normaliser returns non-empty words free of whitespace, joined by
    single spaces, and they are the words of its argument, in order. *)
Theorem norm_ws_words (s : str) :
  normal_form (_norm_ws s) /\ split (_norm_ws s) = split s.
Proof.
  assert (Forall is_word (split s)) as Hwords
    by (apply split_from_is_word; constructor).
  split; [by exists (split s)|]. by apply split_join_words.
Qed.

(** Normalising is idempotent, and it changes no string that is already
    made of words joined by single spaces. *)
Theorem norm_ws_idempotent (s : str) :
  (normal_form s -> _norm_ws s = s)
  /\ _norm_ws (_norm_ws s) = _norm_ws s.
Proof.
  assert (forall t, normal_form t -> _norm_ws t = t) as Hfix.
  { intros t (words & Hwords & ->). unfold _norm_ws.
    by rewrite split_join_words. }
  split; [apply Hfix|]. apply Hfix, norm_ws_words.
Qed.

Lemma norm_ws_idempotent_witness :
  normal_form (lit "two words") /\ _norm_ws (lit "two words") = lit "two words".
Proof.
  assert (normal_form (lit "two words")) as Hn.
  { exists [lit "two"; lit "words"]. split; [|done].
    repeat constructor; (done || by vm_compute). }
  split; [done|]. by apply (norm_ws_idempotent (lit "two words")).
Defined.

(** ** [_chunk_text] for all integers *)

(** For every text and all integers [size] and [overlap], in or out of the
    contract: with [step = max(size - overlap, 1)], the chunker returns one
    chunk for each offset [k * step] below the length of the normalised
    text and no other, chunk [k] being the slice
    [text[k * step : k * step + size]] of the normalised text. *)
Theorem chunk_text_lookup (text : str) (size overlap : Z) (k : nat) (c : str) :
  let t := _norm_ws text in
  let step := Z.max (size - overlap) 1 in
  _chunk_text text size overlap !! k = Some c
  <-> Z.of_nat k * step < len t
      /\ c = py_slice t (Z.of_nat k * step) (Z.of_nat k * step + size).
Proof.
  intros t step. rewrite chunk_text_eq. unfold chunks_of. fold t step.
  rewrite list_lookup_fmap, fmap_Some. setoid_rewrite lookup_seq.
  pose proof (n_chunks_offsets (len t) step k (step_clamped size overlap)
                (len_nonneg t)) as Hoff.
  split.
  - intros (j & [-> Hj] & ->). cbn [Nat.add]. tauto.
  - intros [Hk ->]. exists k. split; [split; [done | tauto] | done].
Qed.

(** With a positive [size], whatever the overlap, no chunk is empty and no
    chunk has more than [size] characters. *)
Theorem chunk_text_sizes (text : str) (size overlap : Z) :
  0 < size ->
  Forall (fun c : str => (0 < length c <= Z.to_nat size)%nat)
    (_chunk_text text size overlap).
Proof.
  intros Hsize. apply Forall_forall. intros c [k Hk]%list_elem_of_lookup.
  apply chunk_text_lookup in Hk as [Hoff ->].
  pose proof (step_clamped size overlap) as Hstep.
  rewrite py_slice_window by lia. rewrite length_take, length_drop.
  unfold len in Hoff. lia.
Qed.

Lemma chunk_text_sizes_witness :
  0 < 4
  /\ Forall (fun c : str => (0 < length c <= Z.to_nat 4)%nat)
       (_chunk_text (lit "  ab  cde f ") 4 7).
Proof. split; [lia|]. apply (chunk_text_sizes (lit "  ab  cde f ") 4 7). lia. Defined.

(** A text whose normal form is not empty and not longer than the step
    [size - overlap] gives exactly one chunk, its normal form. *)
Theorem chunk_text_single (text : str) (size overlap : Z) :
  0 <= overlap -> _norm_ws text <> [] ->
  len (_norm_ws text) <= size - overlap ->
  _chunk_text text size overlap = [_norm_ws text].
Proof.
  intros Hov Hne Hlen. assert (0 < len (_norm_ws text)) as Hpos.
  { unfold len. destruct (_norm_ws text); [done | cbn; lia]. }
  apply list_eq. intros [|k].
  - cbn [lookup list_lookup]. apply chunk_text_lookup.
    split; [lia|]. rewrite Z.mul_0_l, py_slice_window by lia.
    rewrite drop_0, take_ge; [done | unfold len in *; lia].
  - cbn [lookup list_lookup].
    destruct (_chunk_text text size overlap !! S k) as [c|] eqn:Hc; [|done].
    apply chunk_text_lookup in Hc as [Hoff _]. lia.
Qed.

Lemma chunk_text_single_witness :
  (0 <= CHUNK_OVERLAP /\ _norm_ws (lit " a  short text ") <> []
   /\ len (_norm_ws (lit " a  short text ")) <= CHUNK_SIZE - CHUNK_OVERLAP)
  /\ _chunk_text (lit " a  short text ") CHUNK_SIZE CHUNK_OVERLAP
     = [_norm_ws (lit " a  short text ")].
Proof.
  assert (_norm_ws (lit " a  short text ") <> []) as Hne by by vm_compute.
  assert (len (_norm_ws (lit " a  short text "))
          <= CHUNK_SIZE - CHUNK_OVERLAP) as Hlen by by vm_compute.
  split; [split; [by vm_compute | by split]|].
  by apply (chunk_text_single (lit " a  short text ") CHUNK_SIZE CHUNK_OVERLAP).
Defined.

(** A text whose normal form is longer than the step but not longer than
    the size gives exactly two chunks when the step is at least half of it:
    the whole normal form, and then its tail from the step on, which the
    first chunk already holds. *)
Theorem chunk_text_tail_repeated (text : str) (size overlap : Z) :
  0 <= overlap ->
  size - overlap < len (_norm_ws text) <= size ->
  len (_norm_ws text) <= 2 * (size - overlap) ->
  _chunk_text text size overlap
  = [_norm_ws text; drop (Z.to_nat (size - overlap)) (_norm_ws text)].
Proof.
  intros Hov [Hlong Hfit] Htwo.
  assert (0 < size - overlap \/ size - overlap <= 0) as [Hstep|Hstep] by lia.
  2:{ exfalso. pose proof (len_nonneg (_norm_ws text)). lia. }
  apply list_eq. intros [|[|k]]; cbn [lookup list_lookup].
  - apply chunk_text_lookup. split; [lia|].
    rewrite Z.mul_0_l, py_slice_window by lia.
    rewrite drop_0, take_ge; [done | unfold len in *; lia].
  - apply chunk_text_lookup. rewrite Z.max_l by lia. split; [lia|].
    rewrite py_slice_window by lia.
    replace (Z.to_nat (Z.of_nat 1 * (size - overlap)))
      with (Z.to_nat (size - overlap)) by lia.
    rewrite take_ge; [done|]. rewrite length_drop. unfold len in *. lia.
  - destruct (_chunk_text text size overlap !! S (S k)) as [c|] eqn:Hc;
      [|done].
    apply chunk_text_lookup in Hc as [Hoff _]. lia.
Qed.

Lemma chunk_text_tail_repeated_witness :
  (0 <= 1 /\ (4 - 1 < len (_norm_ws (lit "abcd")) <= 4)
   /\ len (_norm_ws (lit "abcd")) <= 2 * (4 - 1))
  /\ _chunk_text (lit "abcd") 4 1
     = [_norm_ws (lit "abcd"); drop (Z.to_nat (4 - 1)) (_norm_ws (lit "abcd"))].
Proof.
  assert (4 - 1 < len (_norm_ws (lit "abcd")) <= 4) as H1 by by vm_compute.
  assert (len (_norm_ws (lit "abcd")) <= 2 * (4 - 1)) as H2 by by vm_compute.
  split; [split; [lia | by split]|].
  apply (chunk_text_tail_repeated (lit "abcd") 4 1); [lia | done..].
Defined.

(** * Further properties of the loaders *)

Lemma gather_all {A} (f : A -> list chunk) (l : list A) :
  gather (fun x => Some (f x)) l = Some (concat (map f l)).
Proof. induction l as [|x l IH]; [done|]. cbn. by rewrite IH. Qed.

(** The text chunks the PDF loader returns are the chunks of the texts of
    the pages, page after page, each tagged with the number of its page,
    counted from 1, whatever happens to the images. *)
Theorem pdf_text_chunks (isalnum : char -> bool) (w : World)
    (filepath root : str) (d d' : Disk) (chunks : list chunk) :
  _load_pdf_with_images isalnum w filepath root d = (d', Some chunks) ->
  exists doc : PdfDoc,
    fitz_open w filepath = Some doc
    /\ text_chunks chunks
       = concat (map (pdf_page_text_chunks (basename filepath))
                   (enumerate 0 (doc_pages doc))).
Proof.
  unfold _load_pdf_with_images, io_bind, io_of_option.
  destruct (fitz_open w filepath) as [doc|]; [|done].
  rewrite assets_dir_run. destruct (makedirs_ok w _); [|done].
  intros Hrun. exists doc. split; [done|].
  pose proof (io_for_texts
    (pdf_page_step isalnum w doc root
       (assets_dir_of isalnum filepath root) (basename filepath))
    (pdf_page_texts (basename filepath)) (enumerate 0 (doc_pages doc))
    ltac:(intros; apply pdf_page_step_texts) ([], 1) d) as Hfor.
  destruct (io_for _ _ _ d) as [d1 [st|]]; [|done].
  injection Hrun as _ <-. unfold pdf_page_texts in Hfor.
  rewrite (gather_all (pdf_page_text_chunks (basename filepath))) in Hfor.
  by injection Hfor.
Qed.

Lemma pdf_text_chunks_witness :
  let chunks := demo_chunks PdfLoader (lit "docs/Report.PDF") faulty_disk in
  _load_pdf_with_images ascii_isalnum demo_world (lit "docs/Report.PDF")
    (lit "uploads") faulty_disk
  = (demo_disk_after PdfLoader (lit "docs/Report.PDF") faulty_disk,
     Some chunks)
  /\ exists doc : PdfDoc,
       fitz_open demo_world (lit "docs/Report.PDF") = Some doc
       /\ text_chunks chunks
          = concat (map (pdf_page_text_chunks (basename (lit "docs/Report.PDF")))
                      (enumerate 0 (doc_pages doc))).
Proof.
  split; [by_evaluation|].
  apply (pdf_text_chunks ascii_isalnum demo_world (lit "docs/Report.PDF")
           (lit "uploads") faulty_disk
           (demo_disk_after PdfLoader (lit "docs/Report.PDF") faulty_disk)).
  by_evaluation.
Defined.

(** The DOCX loader returns the chunks of the text of the document first,
    the kept paragraphs joined by newlines, and the image chunks after them;
    every image chunk carries the same caption, taken from the start of the
    document. *)
Theorem docx_chunks_layout (isalnum : char -> bool) (w : World)
    (filepath root : str) (d d' : Disk) (chunks : list chunk) :
  _load_docx_with_images isalnum w filepath root d = (d', Some chunks) ->
  exists doc : DocxDoc,
    docx_Document w filepath = Some doc
    /\ chunks
       = map (fun c => _text_meta_chunk c (basename filepath) None)
           (_chunk_text (join (lit "
") (docx_kept_paragraphs doc)) CHUNK_SIZE CHUNK_OVERLAP)
         ++ image_chunks chunks
    /\ Forall (fun c => caption_of c = Some (docx_context_snippet doc))
         (image_chunks chunks).
Proof.
  unfold _load_docx_with_images. intros Hrun.
  destruct (docx_Document w filepath) as [doc|] eqn:Hdoc;
    [|by unfold io_bind, io_of_option in Hrun].
  exists doc. split; [done|].
  set (texts := map (fun c => _text_meta_chunk c (basename filepath) None) _).
  set (Q := fun c : chunk =>
              exists path n,
                c = _image_meta_chunk (docx_context_snippet doc) path
                      (basename filepath) None n
                      (Some (docx_context_snippet doc))).
  assert (exists imgs, chunks = texts ++ imgs /\ Forall Q imgs)
    as (imgs & -> & Himgs).
  { revert Hrun. unfold io_bind at 1, io_of_option. cbn beta iota.
    unfold io_bind at 1. rewrite assets_dir_run.
    destruct (makedirs_ok w _); [|done]. unfold io_bind at 1.
    match goal with
    | |- context [io_for ?body ?l ?s d] =>
        pose proof (io_post_for body
          (fun _ _ st => exists imgs, st.1 = texts ++ imgs /\ Forall Q imgs)
          (fun _ => False) l) as Hfor
    end.
    lapply Hfor.
    - clear Hfor. intros Hfor.
      match goal with
      | |- context [io_for ?body ?l ?s d] => specialize (Hfor s d)
      end.
      lapply Hfor; [|exists []; split; [by rewrite app_nil_r | constructor]].
      clear Hfor. unfold io_post. intros Hfor.
      destruct (io_for _ _ _ d) as [d1 [st|]]; [|done].
      intros [= _ <-]. exact Hfor.
    - clear Hfor. intros pre [i part] post [results n] d1 _
        (imgs & Hres & Himgs). cbn [fst] in Hres. subst results.
      unfold docx_part_step. apply io_post_bind, io_post_try.
      eapply io_post_conseq;
        [apply (docx_try_part_post isalnum root _ _ d1 _ i part n d1 []),
           wrote_refl | |]; cbn beta.
      + intros d2 c [_ ->]. apply io_post_ret. eexists. cbn [fst].
        split; [by rewrite <- app_assoc|].
        apply Forall_app. split; [done|]. constructor; [|done].
        by do 2 eexists.
      + intros d2 _. apply io_post_ret. by exists imgs. }
  assert (image_chunks (texts ++ imgs) = imgs) as ->.
  { rewrite image_chunks_app. unfold texts. rewrite image_chunks_texts.
    apply image_chunks_all. eapply Forall_impl; [exact Himgs|].
    by intros c (path & n & ->). }
  split; [done|]. eapply Forall_impl; [exact Himgs|].
  intros c (path & n & ->). by rewrite image_chunk_caption, str_or_caption.
Qed.

Lemma docx_chunks_layout_witness :
  let chunks := demo_chunks DocxLoader (lit "docs/memo.docx") faulty_disk in
  _load_docx_with_images ascii_isalnum demo_world (lit "docs/memo.docx")
    (lit "uploads") faulty_disk
  = (demo_disk_after DocxLoader (lit "docs/memo.docx") faulty_disk,
     Some chunks)
  /\ exists doc : DocxDoc,
       docx_Document demo_world (lit "docs/memo.docx") = Some doc
       /\ chunks
          = map (fun c => _text_meta_chunk c (basename (lit "docs/memo.docx"))
                            None)
              (_chunk_text (join (lit "
") (docx_kept_paragraphs doc)) CHUNK_SIZE CHUNK_OVERLAP)
            ++ image_chunks chunks
       /\ Forall (fun c => caption_of c = Some (docx_context_snippet doc))
            (image_chunks chunks).
Proof.
  split; [by_evaluation|].
  apply (docx_chunks_layout ascii_isalnum demo_world (lit "docs/memo.docx")
           (lit "uploads") faulty_disk
           (demo_disk_after DocxLoader (lit "docs/memo.docx") faulty_disk)).
  by_evaluation.
Defined.

(** ** The text of a slide *)

Lemma pptx_text_step_run (texts : list str) (shape : Shape) (d : Disk) :
  pptx_text_step texts shape d
  = (d, if decide (shape_text_missing shape) then None
        else Some (texts ++ option_list (shape_stripped_text shape))).
Proof.
  unfold pptx_text_step, shape_text_missing, shape_stripped_text, io_bind,
    io_of_option, io_ret.
  destruct (shape_has_text_frame shape) as [[]|],
    (shape_text shape) as [t|]; cbn.
  all: try (rewrite decide_True by done; reflexivity).
  all: rewrite decide_False by (intros [? ?]; congruence).
  all: try (destruct (strip (default [] t)); cbn;
            by rewrite ?app_nil_r).
  all: by rewrite app_nil_r.
Qed.

Lemma pptx_texts_run (slide : Slide) (texts : list str) (d : Disk) :
  io_for pptx_text_step slide texts d
  = (d, if decide (Exists shape_text_missing slide) then None
        else Some (texts ++ omap shape_stripped_text slide)).
Proof.
  revert texts. induction slide as [|shape slide IH]; intros texts.
  - cbn. rewrite decide_False by by intros ?%Exists_nil.
    by rewrite app_nil_r.
  - cbn [io_for]. unfold io_bind. rewrite pptx_text_step_run.
    destruct (decide (shape_text_missing shape)) as [Hmiss|Hok].
    + rewrite decide_True by by left. done.
    + rewrite IH. cbn [omap list_omap].
      destruct (decide (Exists shape_text_missing slide)) as [Hex|Hnex].
      * rewrite decide_True by by right. done.
      * rewrite decide_False by (intros [?|?]%Exists_cons; done).
        f_equal. f_equal. rewrite <- app_assoc. f_equal.
        by destruct (shape_stripped_text shape).
Qed.

(** Gathering the text of a slide leaves the disk alone.  It raises
    exactly when some shape says it has a text frame and has no [text];
    otherwise the text of the slide is the stripped texts of the shapes that
    have a [text], whether or not they say they have a text frame, blank
    ones left out, one per line. *)
Theorem pptx_slide_text_run (slide : Slide) (d : Disk) :
  pptx_slide_text slide d
  = (d, if decide (Exists shape_text_missing slide) then None
        else Some (join (lit "
") (omap shape_stripped_text slide))).
Proof.
  unfold pptx_slide_text, io_bind. rewrite pptx_texts_run.
  by destruct (decide (Exists shape_text_missing slide)).
Qed.

(** On a disk without faults the image chunks of a loader are the chunks of
    the images of the document that can be extracted, in the order of the
    loops and numbered from 1 on without a gap; the call uses up no fault. *)
Theorem image_chunks_without_faults (isalnum : char -> bool) (w : World)
    (k : Loader) (filepath root : str) (d d' : Disk) (chunks : list chunk) :
  faults d = [] ->
  run_loader isalnum w k filepath root d = (d', Some chunks) ->
  image_chunks chunks
  = number_from 1 (extractable (image_attempts isalnum w k filepath root))
  /\ faults d' = [].
Proof.
  intros Hd Hrun. apply run_loader_attempts in Hrun.
  destruct (save_all_no_faults (image_attempts isalnum w k filepath root) 1 d
              Hd) as [Hcs Hf].
  rewrite Hrun in Hcs, Hf. by split.
Qed.

Lemma image_chunks_without_faults_witness :
  let d' := demo_disk_after DocxLoader (lit "docs/memo.docx") empty_disk in
  let chunks := demo_chunks DocxLoader (lit "docs/memo.docx") empty_disk in
  (faults empty_disk = []
   /\ demo_run DocxLoader (lit "docs/memo.docx") empty_disk
      = (d', Some chunks))
  /\ (image_chunks chunks
      = number_from 1
          (extractable
             (image_attempts ascii_isalnum demo_world DocxLoader
                (lit "docs/memo.docx") (lit "uploads")))
      /\ faults d' = [])
  /\ length (image_attempts ascii_isalnum demo_world DocxLoader
               (lit "docs/memo.docx") (lit "uploads")) = 3%nat
  /\ omap figure_no_of (image_chunks chunks) = [1; 2]
  /\ omap image_path_of (image_chunks chunks)
     = [lit "memo_assets/memo_fig_1.jpg"; lit "memo_assets/memo_fig_3.gif"].
Proof.
  split; [split; [reflexivity | by_evaluation]|].
  split; [|repeat split; by_evaluation].
  apply (image_chunks_without_faults ascii_isalnum demo_world DocxLoader
           (lit "docs/memo.docx") (lit "uploads") empty_disk);
    [reflexivity | by_evaluation].
Defined.
